(** * AVF Guardian: the scoring pipeline of [app.py]

    Shallow embedding of the prediction path of the Streamlit app:
    winsor clamp and [np.log1p] of the four numeric inputs, feature
    expansion with [itertools.combinations], [StandardScaler.transform],
    [LogisticRegression.predict_proba], the per-feature contribution table
    sorted by [DataFrame.sort_values(key=abs)], and [load_models].

    Python floats are modelled as exact reals; the non-finite IEEE values
    produced by [np.log1p] (nan, -inf) are kept as separate constructors of
    [pyfloat]; [expit] is the exact-real logistic function, without the
    saturation of float64 at 0.0 and 1.0. A Python [str] is modelled on
    code points below 256 (Latin-1), one [ascii] per code point.
    [StandardScaler] and [LogisticRegression] follow scikit-learn >= 1.2
    ([validate_data]: feature names, then [check_array], then the number of
    features). *)

From Stdlib Require Import Reals Lra Lia ZArith List String Ascii Bool Arith.
From Stdlib Require Import Permutation Sorted FunctionalExtensionality.
Import ListNotations.

Open Scope R_scope.

(* ------------------------------------------------------------------ *)
(** ** Python strings: [str.strip] and [str.lower] on Latin-1 *)

Module PyStr.

(** [str.isspace] below U+0100: \t \n \x0b \x0c \r, \x1c-\x1f, space,
    \x85 and \xa0. *)
Definition is_space (c : ascii) : bool :=
  let n := nat_of_ascii c in
  ((9 <=? n) && (n <=? 13))%nat || ((28 <=? n) && (n <=? 32))%nat ||
  (n =? 133)%nat || (n =? 160)%nat.

Fixpoint lstrip_list (l : list ascii) : list ascii :=
  match l with
  | [] => []
  | c :: t => if is_space c then lstrip_list t else l
  end.

Definition strip_list (l : list ascii) : list ascii :=
  rev (lstrip_list (rev (lstrip_list l))).

Definition strip (s : string) : string :=
  string_of_list_ascii (strip_list (list_ascii_of_string s)).

(** [str.lower] below U+0100: A-Z, \xc0-\xd6 and \xd8-\xde map to the
    code point 32 above; every other character is kept. *)
Definition lower_char (c : ascii) : ascii :=
  let n := nat_of_ascii c in
  if ((65 <=? n) && (n <=? 90))%nat || ((192 <=? n) && (n <=? 214))%nat ||
     ((216 <=? n) && (n <=? 222))%nat
  then ascii_of_nat (n + 32) else c.

Fixpoint lower (s : string) : string :=
  match s with
  | EmptyString => EmptyString
  | String c t => String (lower_char c) (lower t)
  end.

(** [k.strip().lower()] *)
Definition norm (s : string) : string := lower (strip s).

End PyStr.

(* ------------------------------------------------------------------ *)
(** ** Dicts (insertion ordered), exceptions, floats *)

(** A Python dict as an association list in insertion order. *)
Definition dict (V : Type) := list (string * V).

Fixpoint dict_get {V} (d : dict V) (k : string) : option V :=
  match d with
  | [] => None
  | (k', v) :: t => if String.eqb k' k then Some v else dict_get t k
  end.

(** Truthiness of a dict: [if limits:] is false on [{}] (and on [None]). *)
Definition dict_truthy {V} (d : dict V) : bool :=
  match d with [] => false | _ => true end.

Inductive exn :=
| KeyError (k : string)
| ValueError (msg : string).

Inductive result (A : Type) :=
| Ok (a : A)
| Err (e : exn).
Arguments Ok {A} a.
Arguments Err {A} e.

Definition bind {A B} (m : result A) (k : A -> result B) : result B :=
  match m with Ok a => k a | Err e => Err e end.

Notation "'let*' x := m 'in' k" := (bind m (fun x => k))
  (at level 200, x name, m at level 100, k at level 200).

(** [d[k]] *)
Definition dict_getitem {V} (d : dict V) (k : string) : result V :=
  match dict_get d k with Some v => Ok v | None => Err (KeyError k) end.

Fixpoint mapM {A B} (f : A -> result B) (l : list A) : result (list B) :=
  match l with
  | [] => Ok []
  | x :: t => let* y := f x in let* ys := mapM f t in Ok (y :: ys)
  end.

(** [l[i] = x] on a Python list (the index is assumed in range). *)
Fixpoint replace_at {A} (l : list A) (i : nat) (x : A) : list A :=
  match l, i with
  | [], _ => []
  | _ :: t, O => x :: t
  | y :: t, S i' => y :: replace_at t i' x
  end.

(** A float64 value: a finite real, or one of the IEEE special values. *)
Inductive pyfloat :=
| Fin (r : R)
| PosInf
| NegInf
| NaN.

Definition Rltb (x y : R) : bool := if Rlt_dec x y then true else false.

(** [np.log1p]: ln(1+x) on (-1, oo); -inf at -1 and nan below, with a
    RuntimeWarning only (numpy's default error state), never an exception. *)
Definition np_log1p (x : R) : pyfloat :=
  if Rlt_dec (-1) x then Fin (ln (1 + x))
  else if Req_EM_T x (-1) then NegInf
  else NaN.

Definition flip_inf (f : pyfloat) : pyfloat :=
  match f with PosInf => NegInf | NegInf => PosInf | g => g end.

(** IEEE multiplication (finite products are exact reals). *)
Definition pf_mul (a b : pyfloat) : pyfloat :=
  match a, b with
  | NaN, _ | _, NaN => NaN
  | Fin x, Fin y => Fin (x * y)
  | Fin x, i | i, Fin x =>
      if Req_EM_T x 0 then NaN else if Rlt_dec 0 x then i else flip_inf i
  | PosInf, PosInf | NegInf, NegInf => PosInf
  | _, _ => NegInf
  end.

(** Python's builtin [min(a, b)] / [max(a, b)]: the first argument is kept
    unless the second compares strictly smaller / greater. *)
Definition py_min (a b : R) : R := if Rlt_dec b a then b else a.
Definition py_max (a b : R) : R := if Rlt_dec a b then b else a.

(* ------------------------------------------------------------------ *)
(** ** 4.1 Preprocessing: winsorize and log (lines 180-202) *)

(** The six inputs of the sidebar form. *)
Record raw_input := {
  mlr : R; crp : R; tg : R; nlr : R; ijvc : Z; sex : Z }.

(** [input_data] (line 181): the one row of [df_input]. *)
Definition input_data (r : raw_input) : dict R :=
  [("MLR", mlr r); ("CRP", crp r); ("triglycerides", tg r); ("NLR", nlr r);
   ("IJVC", IZR (ijvc r)); ("sex", IZR (sex r))]%string.

Definition numeric_cols : list string :=
  ["MLR"; "CRP"; "triglycerides"; "NLR"]%string.

(** [winsor_limits] as the training script saves it: variable name ->
    {'lower': .., 'upper': ..}, with [str] keys and float bounds. *)
Definition winsor := dict (dict R).

(** The key-matching loop (lines 191-195): the first key [k] of the dict
    with [k.strip().lower() == col.strip().lower()]. *)
Fixpoint find_limits (col : string) (wl : winsor) : option (dict R) :=
  match wl with
  | [] => None
  | (k, lim) :: t =>
      if String.eqb (PyStr.norm k) (PyStr.norm col) then Some lim
      else find_limits col t
  end.

(** Lines 197-202 for one column with value [val]: clamp when limits were
    found and are truthy, then [np.log1p]. *)
Definition clamp_and_log (wl : winsor) (col : string) (val : R) : result pyfloat :=
  match find_limits col wl with
  | Some lim =>
      if dict_truthy lim then
        let* lo := dict_getitem lim "lower" in
        let* up := dict_getitem lim "upper" in
        Ok (np_log1p (py_max lo (py_min val up)))
      else Ok (np_log1p val)
  | None => Ok (np_log1p val)
  end.

(** The loop over [numeric_cols]: the new [log_<col>] columns, in order.
    [df_input[col]] is read from the raw row, which the loop never
    overwrites. *)
Fixpoint preprocess (wl : winsor) (inp : dict R) (cols : list string)
  : result (dict pyfloat) :=
  match cols with
  | [] => Ok []
  | col :: rest =>
      let* v := dict_getitem inp col in
      let* t := clamp_and_log wl col v in
      let* tl := preprocess wl inp rest in
      Ok ((("log_" ++ col)%string, t) :: tl)
  end.

(** [df_input] after the loop: raw columns, then the [log_*] columns. *)
Definition df_input (inp : dict R) (logs : dict pyfloat) : dict pyfloat :=
  map (fun kv => (fst kv, Fin (snd kv))) inp ++ logs.

(* ------------------------------------------------------------------ *)
(** ** Feature expansion (lines 205-216) *)

Definition core_feats : list string :=
  ["log_MLR"; "log_CRP"; "log_triglycerides"; "log_NLR"; "IJVC"; "sex"]%string.

(** [itertools.combinations(l, 2)] *)
Fixpoint combinations2 {A} (l : list A) : list (A * A) :=
  match l with
  | [] => []
  | x :: t => map (fun y => (x, y)) t ++ combinations2 t
  end.

Definition inter_name (c1 c2 : string) : string := (c1 ++ "*" ++ c2)%string.

(** [X_final]: main effects, then interactions [df_input[c1] * df_input[c2]]. *)
Definition expand (df : dict pyfloat) : result (dict pyfloat) :=
  let* mains := mapM (fun f => let* v := dict_getitem df f in Ok (f, v)) core_feats in
  let* inters :=
    mapM (fun p => let* a := dict_getitem df (fst p) in
                   let* b := dict_getitem df (snd p) in
                   Ok (inter_name (fst p) (snd p), pf_mul a b))
         (combinations2 core_feats) in
  Ok (mains ++ inters).

(* ------------------------------------------------------------------ *)
(** ** Scaler and model (lines 219-223) *)

(** A fitted [StandardScaler]: its [feature_names_in_] (present when it was
    fitted on a DataFrame), [n_features_in_], the [with_mean] and
    [with_std] flags, [mean_] and [scale_]. *)
Record std_scaler := {
  sc_feature_names_in_ : option (list string);
  n_features_in_ : nat;
  with_mean : bool;
  with_std : bool;
  mean_ : list R;
  scale_ : list R }.

Definition nl : string := String (ascii_of_nat 10) EmptyString.

(** [str(n)] for a natural number. *)
Fixpoint digits_aux (fuel n : nat) (acc : string) : string :=
  match fuel with
  | O => acc
  | S f =>
      let acc' := String (ascii_of_nat (48 + Nat.modulo n 10)) acc in
      if Nat.ltb n 10 then acc' else digits_aux f (Nat.div n 10) acc'
  end.

Definition py_str_nat (n : nat) : string := digits_aux (S n) n EmptyString.

(** Python's [<] on two strings: code point by code point. *)
Fixpoint str_ltb (a b : string) : bool :=
  match a, b with
  | EmptyString, EmptyString => false
  | EmptyString, String _ _ => true
  | String _ _, EmptyString => false
  | String c a', String d b' =>
      if Nat.ltb (nat_of_ascii c) (nat_of_ascii d) then true
      else if Nat.ltb (nat_of_ascii d) (nat_of_ascii c) then false
      else str_ltb a' b'
  end.

Fixpoint insert_str (s : string) (l : list string) : list string :=
  match l with
  | [] => [s]
  | t :: l' => if str_ltb t s then t :: insert_str s l' else s :: l
  end.

(** [sorted(set(a) - set(b))] *)
Definition set_diff_sorted (a b : list string) : list string :=
  fold_right insert_str []
    (nodup string_dec (filter (fun n => negb (existsb (String.eqb n) b)) a)).

(** [add_names] of [_check_feature_names]: at most five names listed. *)
Fixpoint add_names_aux (i : nat) (names : list string) : string :=
  match names with
  | [] => EmptyString
  | n :: t =>
      if Nat.leb 5 i then ("- ..." ++ nl)%string
      else ("- " ++ n ++ nl ++ add_names_aux (S i) t)%string
  end.

Definition add_names (names : list string) : string := add_names_aux 0 names.

(** The [ValueError] message of [_check_feature_names] when the names of
    [X] differ from the fitted ones. *)
Definition names_mismatch_msg (fitted xnames : list string) : string :=
  let unexpected := set_diff_sorted xnames fitted in
  let missing := set_diff_sorted fitted xnames in
  ("The feature names should match those that were passed during fit." ++ nl ++
   match unexpected with
   | [] => EmptyString
   | _ => "Feature names unseen at fit time:" ++ nl ++ add_names unexpected
   end ++
   match missing with
   | [] => EmptyString
   | _ => "Feature names seen at fit time, yet now missing:" ++ nl ++ add_names missing
   end ++
   match unexpected, missing with
   | [], [] => "Feature names must be in the same order as they were in fit." ++ nl
   | _, _ => EmptyString
   end)%string.

(** [_check_feature_names(X, reset=False)]: only an estimator fitted with
    feature names compares them with the columns of the DataFrame [X];
    otherwise at most a warning is issued. *)
Definition check_feature_names (fitted : option (list string)) (xnames : list string)
  : result unit :=
  match fitted with
  | Some fs =>
      if list_eq_dec string_dec fs xnames then Ok tt
      else Err (ValueError (names_mismatch_msg fs xnames))
  | None => Ok tt
  end.

(** [_check_n_features(X, reset=False)] *)
Definition n_features_msg (cls : string) (n k : nat) : string :=
  ("X has " ++ py_str_nat n ++ " features, but " ++ cls ++ " is expecting " ++
   py_str_nat k ++ " features as input.")%string.

Definition inf_msg : string :=
  "Input X contains infinity or a value too large for dtype('float64').".

Definition is_inf (x : pyfloat) : bool :=
  match x with PosInf | NegInf => true | _ => false end.

(** IEEE [x - m] for a finite [m]. *)
Definition pf_sub (x : pyfloat) (m : R) : pyfloat :=
  match x with Fin a => Fin (a - m) | i => i end.

(** IEEE [x / s] for a finite [s]; a zero [s] is taken as +0.0. *)
Definition pf_div (x : pyfloat) (s : R) : pyfloat :=
  match x with
  | Fin a =>
      if Req_EM_T s 0 then
        (if Req_EM_T a 0 then NaN else if Rlt_dec 0 a then PosInf else NegInf)
      else Fin (a / s)
  | NaN => NaN
  | i => if Req_EM_T s 0 then i else if Rlt_dec 0 s then i else flip_inf i
  end.

(** numpy's in-place [X op= p] of the (1, n) row [xs] with a 1-d array [p]
    of length k: elementwise when k = n, one value for every column when
    k = 1; otherwise a [ValueError]. *)
Definition broadcast {A} (op : A -> R -> A) (xs : list A) (ps : list R) : result (list A) :=
  let n := List.length xs in
  let k := List.length ps in
  if Nat.eqb k n then Ok (map (fun p => op (fst p) (snd p)) (combine xs ps))
  else match ps with
       | [p] => Ok (map (fun x => op x p) xs)
       | _ =>
           if Nat.eqb n 1 then
             Err (ValueError ("non-broadcastable output operand with shape (1,1) doesn't match the broadcast shape (1," ++ py_str_nat k ++ ")"))
           else
             Err (ValueError ("operands could not be broadcast together with shapes (1," ++
                  py_str_nat n ++ ") (" ++ py_str_nat k ++ ",) (1," ++ py_str_nat n ++ ") "))
       end.

(** [scaler.transform(X_final)]: the feature names; [check_array] with
    [ensure_all_finite='allow-nan'] (nan passes, inf raises); the number of
    columns; then [X -= mean_] and [X /= scale_]. *)
Definition scaler_transform (sc : std_scaler) (X : dict pyfloat) : result (list pyfloat) :=
  let* _ := check_feature_names (sc_feature_names_in_ sc) (map fst X) in
  let xs := map snd X in
  if existsb is_inf xs then Err (ValueError inf_msg)
  else if negb (Nat.eqb (List.length xs) (n_features_in_ sc)) then
    Err (ValueError (n_features_msg "StandardScaler" (List.length xs) (n_features_in_ sc)))
  else
    let* ys := if with_mean sc then broadcast pf_sub xs (mean_ sc) else Ok xs in
    if with_std sc then broadcast pf_div ys (scale_ sc) else Ok ys.

(** A fitted binary [LogisticRegression]: [coef_[0]], [intercept_[0]] and the
    optional [feature_names_in_]; its [n_features_in_] is [len(coef_[0])]. *)
Record logreg := {
  coef_ : list R; intercept_ : R; feature_names_in_ : option (list string) }.

Fixpoint dot (cs xs : list R) : R :=
  match cs, xs with
  | c :: cs', x :: xs' => c * x + dot cs' xs'
  | _, _ => 0
  end.

(** [decision_function]: [X @ coef_.T + intercept_]. *)
Definition decision_function (m : logreg) (xs : list R) : R :=
  dot (coef_ m) xs + intercept_ m.

(** [scipy.special.expit], as an exact real: 1 / (1 + e^-z). *)
Definition expit (z : R) : R := 1 / (1 + exp (- z)).

(** [check_array] in the [validate_data] of [LogisticRegression]
    (nan and inf rejected): the first non-finite value of the row, in
    column order, decides the message. [X_scaled] is an ndarray, so the
    feature-name check before it only warns. *)
Definition nan_msg_lr : string :=
  ("Input X contains NaN." ++ nl ++
   "LogisticRegression does not accept missing values encoded as NaN natively." ++
   " For supervised learning, you might want to consider" ++
   " sklearn.ensemble.HistGradientBoostingClassifier and Regressor which accept" ++
   " missing values encoded as NaNs natively. Alternatively, it is possible to" ++
   " preprocess the data, for instance by using an imputer transformer in a" ++
   " pipeline or drop samples with missing values. See" ++
   " https://scikit-learn.org/stable/modules/impute.html You can find a list of" ++
   " all estimators that handle NaN values at the following page:" ++
   " https://scikit-learn.org/stable/modules/impute.html" ++
   "#estimators-that-handle-nan-values")%string.

Fixpoint lr_check_array (xs : list pyfloat) : result (list R) :=
  match xs with
  | [] => Ok []
  | Fin r :: t => let* rs := lr_check_array t in Ok (r :: rs)
  | NaN :: _ => Err (ValueError nan_msg_lr)
  | _ :: _ => Err (ValueError inf_msg)
  end.

(** [model.predict_proba(X_scaled)[0, 1]] on a finite row: the column
    count is checked against [n_features_in_], then
    [expit(decision_function)] is the probability of class 1. *)
Definition predict_proba (m : logreg) (xs : list R) : result R :=
  if Nat.eqb (List.length xs) (List.length (coef_ m)) then Ok (expit (decision_function m xs))
  else Err (ValueError (n_features_msg "LogisticRegression" (List.length xs) (List.length (coef_ m)))).

(* ------------------------------------------------------------------ *)
(** ** Contributions (lines 300-322) *)

Definition readable_map : dict string :=
  [("log_MLR", "MLR (Inflammation)"); ("log_CRP", "CRP (Inflammation)");
   ("log_triglycerides", "Triglycerides (Lipids)"); ("log_NLR", "NLR (Inflammation)");
   ("IJVC", "Hx of IJV Cannulation"); ("sex", "Sex");
   ("log_MLR*log_CRP", "Interaction: MLR x CRP");
   ("log_MLR*log_triglycerides", "Interaction: MLR x TG");
   ("log_MLR*log_NLR", "Interaction: MLR x NLR")]%string.

(** [readable_map.get(name, name)] *)
Definition readable (name : string) : string :=
  match dict_get readable_map name with Some s => s | None => name end.

(** The loop over [zip(feature_names, coeffs, X_scaled[0])] (zip stops at
    the shortest argument): rows ('Risk Factor', 'Impact'). *)
Definition contributions (names : list string) (coeffs xs : list R) : list (string * R) :=
  map (fun p => (readable (fst p), fst (snd p) * snd (snd p)))
      (combine names (combine coeffs xs)).

(* ------------------------------------------------------------------ *)
(** ** [np.argsort(kind='quicksort')] *)

(** numpy's generic introsort for argsort ([aquicksort_] in
    [npysort/quicksort.cpp], with [aheapsort_] as depth fallback), on the
    index array [tosort]. [less i j] is [Tag::less(v[i], v[j])]. Pointers are
    positions (Z) into the array; loops carry fuel. *)
Module NpSort.
Section Sort.
Variable less : nat -> nat -> bool.

Fixpoint upd (l : list nat) (i : nat) (x : nat) : list nat :=
  match l, i with
  | [], _ => []
  | _ :: t, O => x :: t
  | y :: t, S i' => y :: upd t i' x
  end.

Definition get (a : list nat) (p : Z) : nat := nth (Z.to_nat p) a O.
Definition set (a : list nat) (p : Z) (x : nat) : list nat := upd a (Z.to_nat p) x.

(** [INTP_SWAP] of the entries at [p] and [q]. *)
Definition swap (a : list nat) (p q : Z) : list nat :=
  let tmp := get a q in set (set a q (get a p)) p tmp.

(** [do ++pi; while (less(v[*pi], vp));] *)
Fixpoint scan_up (fuel : nat) (a : list nat) (vp : nat) (pi : Z) : Z :=
  match fuel with
  | O => pi
  | S f => if less (get a (pi + 1)) vp then scan_up f a vp (pi + 1) else (pi + 1)%Z
  end.

(** [do --pj; while (less(vp, v[*pj]));] *)
Fixpoint scan_down (fuel : nat) (a : list nat) (vp : nat) (pj : Z) : Z :=
  match fuel with
  | O => pj
  | S f => if less vp (get a (pj - 1)) then scan_down f a vp (pj - 1) else (pj - 1)%Z
  end.

(** The [for (;;)] partition loop. *)
Fixpoint part_loop (fuel : nat) (a : list nat) (vp : nat) (pi pj : Z) : list nat * Z :=
  match fuel with
  | O => (a, pi)
  | S f =>
      let pi' := scan_up (List.length a) a vp pi in
      let pj' := scan_down (List.length a) a vp pj in
      if (pj' <=? pi')%Z then (a, pi')
      else part_loop f (swap a pi' pj') vp pi' pj'
  end.

(** Median of three, partition of [pl..pr], pivot moved to its place [pi]. *)
Definition partition (a : list nat) (pl pr : Z) : list nat * Z :=
  let pm := (pl + Z.shiftr (pr - pl) 1)%Z in
  let a := if less (get a pm) (get a pl) then swap a pm pl else a in
  let a := if less (get a pr) (get a pm) then swap a pr pm else a in
  let a := if less (get a pm) (get a pl) then swap a pm pl else a in
  let vp := get a pm in
  let a := swap a pm (pr - 1) in
  let '(a, pi) := part_loop (List.length a) a vp pl (pr - 1) in
  (swap a pi (pr - 1), pi).

(** [while ((pr - pl) > SMALL_QUICKSORT)]: partition, push the larger part
    with the decremented depth, continue on the smaller one. *)
Fixpoint part_while (fuel : nat) (a : list nat) (pl pr cdepth : Z)
  (stack : list (Z * Z * Z)) : list nat * Z * Z * list (Z * Z * Z) :=
  match fuel with
  | O => (a, pl, pr, stack)
  | S f =>
      if (16 <? pr - pl)%Z then
        let '(a, pi) := partition a pl pr in
        let cd := (cdepth - 1)%Z in
        if (pi - pl <? pr - pi)%Z
        then part_while f a pl (pi - 1) cd ((pi + 1, pr, cd)%Z :: stack)
        else part_while f a (pi + 1)%Z pr cd ((pl, pi - 1, cd)%Z :: stack)
      else (a, pl, pr, stack)
  end.

(** Insertion of [vi = a[pi]]: shift larger entries right. *)
Fixpoint ins_shift (fuel : nat) (a : list nat) (vi : nat) (pl pj : Z) : list nat :=
  match fuel with
  | O => set a pj vi
  | S f =>
      if (pl <? pj)%Z && less vi (get a (pj - 1))
      then ins_shift f (set a pj (get a (pj - 1))) vi pl (pj - 1)
      else set a pj vi
  end.

Fixpoint ins_loop (fuel : nat) (a : list nat) (pl pi pr : Z) : list nat :=
  match fuel with
  | O => a
  | S f =>
      if (pi <=? pr)%Z then ins_loop f (ins_shift (List.length a) a (get a pi) pl pi) pl (pi + 1) pr
      else a
  end.

Definition insertion_sort (a : list nat) (pl pr : Z) : list nat :=
  ins_loop (List.length a) a pl (pl + 1) pr.

(** [aheapsort_] on the [n] entries from [base]; [a[k]] is 1-based. *)
Definition hget (a : list nat) (base k : Z) : nat := get a (base + k - 1).
Definition hset (a : list nat) (base k : Z) (x : nat) : list nat := set a (base + k - 1) x.

Fixpoint sift (fuel : nat) (a : list nat) (base n i j : Z) (tmp : nat) : list nat :=
  match fuel with
  | O => hset a base i tmp
  | S f =>
      if (j <=? n)%Z then
        let j := if (j <? n)%Z && less (hget a base j) (hget a base (j + 1))
                 then (j + 1)%Z else j in
        if less tmp (hget a base j)
        then sift f (hset a base i (hget a base j)) base n j (j + j) tmp
        else hset a base i tmp
      else hset a base i tmp
  end.

Fixpoint heapify (fuel : nat) (a : list nat) (base n l : Z) : list nat :=
  match fuel with
  | O => a
  | S f =>
      if (0 <? l)%Z
      then heapify f (sift (Z.to_nat n + 1) a base n l (2 * l) (hget a base l)) base n (l - 1)
      else a
  end.

Fixpoint sortdown (fuel : nat) (a : list nat) (base n : Z) : list nat :=
  match fuel with
  | O => a
  | S f =>
      if (1 <? n)%Z then
        let tmp := hget a base n in
        let a := hset a base n (hget a base 1) in
        sortdown f (sift (Z.to_nat n + 1) a base (n - 1) 1 2 tmp) base (n - 1)
      else a
  end.

Definition aheapsort (a : list nat) (base n : Z) : list nat :=
  sortdown (Z.to_nat n) (heapify (Z.to_nat n) a base n (Z.shiftr n 1)) base n.

(** The outer [for (;;)]: heapsort when the depth budget is spent, else
    partition down to a small range and insertion-sort it; then pop. *)
Fixpoint qs_outer (fuel : nat) (a : list nat) (pl pr cdepth : Z)
  (stack : list (Z * Z * Z)) : list nat :=
  match fuel with
  | O => a
  | S f =>
      let '(a, stack) :=
        if (cdepth <? 0)%Z then (aheapsort a pl (pr - pl + 1), stack)
        else let '(a, pl, pr, stack) := part_while (List.length a) a pl pr cdepth stack in
             (insertion_sort a pl pr, stack) in
      match stack with
      | [] => a
      | (l, r, d) :: st => qs_outer f a l r d st
      end
  end.

(** [npy_get_msb] *)
Definition npy_get_msb (n : nat) : Z := Z.log2 (Z.of_nat n).

Definition aquicksort (num : nat) : list nat :=
  qs_outer (2 * num + 1) (seq 0 num) 0 (Z.of_nat num - 1) (npy_get_msb num * 2) [].

End Sort.
End NpSort.

(** An [argsort] of float64 keys with [kind='quicksort'] (an index list).
    Which sort numpy runs depends on its version and on the CPU: the
    generic introsort above, or, on x86 CPUs where numpy dispatches to it
    (AVX-512 from numpy 1.25, AVX2 in later releases), the vectorised
    argsort of x86-simd-sort. They may order equal keys differently. *)
Definition argsort_fn := list R -> list nat.

(** [np.argsort(keys, kind='quicksort')] with numpy's generic introsort. *)
Definition np_argsort_generic (keys : list R) : list nat :=
  NpSort.aquicksort (fun i j => Rltb (nth i keys 0) (nth j keys 0)) (List.length keys).

(** pandas' [nargsort(items, kind='quicksort', ascending=False)] on NaN-free
    keys: argsort the reversed keys, map back, reverse the indexer. *)
Definition nargsort_desc_with (argsort : argsort_fn) (keys : list R) : list nat :=
  let n := List.length keys in
  let non_nans := rev keys in
  let non_nan_idx := rev (seq 0 n) in
  let ix := argsort non_nans in
  rev (map (fun k => nth k non_nan_idx O) ix).

(** [pd.DataFrame(contributions).sort_values(by='Impact', ascending=False, key=abs)] *)
Definition sort_by_abs_desc_with (argsort : argsort_fn) (rows : list (string * R))
  : list (string * R) :=
  map (fun i => nth i rows (""%string, 0))
      (nargsort_desc_with argsort (map (fun r => Rabs (snd r)) rows)).

(** The same, where numpy runs its generic introsort. *)
Definition nargsort_desc : list R -> list nat := nargsort_desc_with np_argsort_generic.
Definition sort_by_abs_desc : list (string * R) -> list (string * R) :=
  sort_by_abs_desc_with np_argsort_generic.

(* ------------------------------------------------------------------ *)
(** ** One prediction request (lines 179-345) *)

(** What the submitted form produces: the result panel with the
    probability and the sorted contribution table; the probability panel
    followed by the "Prediction Error" of an exception raised while the
    table is built; the [except Exception] handler's "Prediction Error"
    with the [X_final] debug table before any result is shown; or an
    exception raised before the [try] (a malformed winsor-limits entry). *)
Inductive outcome :=
| Shown (prob : R) (df_contrib : list (string * R))
| ShownThenError (prob : R) (e : exn) (debug : dict pyfloat)
| PredictionError (e : exn) (debug : dict pyfloat)
| Raised (e : exn).

(** The table is sorted with numpy's generic introsort. An empty
    [contributions] list gives a DataFrame without an ['Impact'] column,
    and [sort_values(by='Impact')] raises [KeyError('Impact')]. *)
Definition request (wl : winsor) (sc : std_scaler) (m : logreg) (r : raw_input) : outcome :=
  let inp := input_data r in
  match preprocess wl inp numeric_cols with
  | Err e => Raised e
  | Ok logs =>
      match expand (df_input inp logs) with
      | Err e => Raised e
      | Ok X =>
          match scaler_transform sc X with
          | Err e => PredictionError e X
          | Ok ys =>
              match lr_check_array ys with
              | Err e => PredictionError e X
              | Ok xs =>
                  match predict_proba m xs with
                  | Err e => PredictionError e X
                  | Ok p =>
                      let names := match feature_names_in_ m with
                                   | Some fs => fs | None => map fst X end in
                      match contributions names (coef_ m) xs with
                      | [] => ShownThenError p (KeyError "Impact") X
                      | rows => Shown p (sort_by_abs_desc rows)
                      end
                  end
              end
          end
      end
  end.

(* ------------------------------------------------------------------ *)
(** ** Loading the artifacts (lines 97-140) *)

(** The file system as seen by [os.path.exists] and [joblib.load]; a loader
    returns [None] when the file is missing or cannot be unpickled. *)
Record filesystem := {
  path_exists : string -> bool;
  load_lr_model : string -> option logreg;
  load_scaler : string -> option std_scaler;
  load_winsor : string -> option winsor;
  load_stats : string -> option (dict (dict R)) }.

Definition model_paths : list string := ["e:\MLR\Models"; "Models"; "../Models"]%string.

(** [os.path.join] *)
Definition path_join (base f : string) : string := (base ++ "/" ++ f)%string.

Fixpoint first_existing (fs : filesystem) (paths : list string) : option string :=
  match paths with
  | [] => None
  | p :: t => if path_exists fs p then Some p else first_existing fs t
  end.

(** [st.stop()] ends the script run: the app never gets past startup. *)
Inductive load_outcome :=
| Stopped (msg : string)
| Loaded (m : logreg) (sc : std_scaler) (wl : winsor) (stats : dict (dict R)).

Definition load_models (fs : filesystem) : load_outcome :=
  let base_path := first_existing fs model_paths in
  match base_path with
  | None => Stopped "Model files not found! Please ensure 'Models' directory exists."
  | Some b =>
      if String.eqb b "" then
        Stopped "Model files not found! Please ensure 'Models' directory exists."
      else
        match load_lr_model fs (path_join b "lr_model.pkl"),
              load_scaler fs (path_join b "scaler.pkl"),
              load_winsor fs (path_join b "winsor_limits.pkl") with
        | Some m, Some sc, Some wl =>
            let stats := match load_stats fs (path_join b "data_stats.pkl") with
                         | Some s => s | None => [] end in
            Loaded m sc wl stats
        | _, _, _ => Stopped "Error loading model files"
        end
  end.

(** [get_default(col, fallback)] *)
Definition get_default (stats : dict (dict R)) (col : string) (fallback : R) : R :=
  match dict_get stats col with
  | Some d => match dict_get d "50%" with Some v => v | None => fallback end
  | None => fallback
  end.

(* ------------------------------------------------------------------ *)
(** ** The sidebar form (lines 142-158) *)

(** The values the form can submit: [st.selectbox] over [[1, 2]] for sex
    and IJVC, [st.number_input] between its [min_value] and [max_value]
    for the four biomarkers. *)
Definition form_value_ok (r : raw_input) : Prop :=
  (sex r = 1 \/ sex r = 2)%Z /\ (ijvc r = 1 \/ ijvc r = 2)%Z /\
  0 <= mlr r <= 10 /\ 0 <= crp r <= 200 /\ 0 <= nlr r <= 50 /\ 0 <= tg r <= 20.

(* ------------------------------------------------------------------ *)
(** ** Displaying the result (lines 233-335) *)

Inductive risk_level := LowRisk | ModerateRisk | HighRisk.

(** The risk badge (lines 236-241). *)
Definition risk_badge (prob : R) : risk_level :=
  if Rlt_dec prob (2/10) then LowRisk
  else if Rlt_dec prob (1/2) then ModerateRisk
  else HighRisk.

(** The "Clinical Interpretation & Recommendations" box (lines 262-293). *)
Definition recommendation (prob : R) : risk_level :=
  if Rlt_dec (1/2) prob then HighRisk
  else if Rlt_dec (2/10) prob then ModerateRisk
  else LowRisk.

Definition risk_rank (l : risk_level) : nat :=
  match l with LowRisk => 0 | ModerateRisk => 1 | HighRisk => 2 end.

(** [df_contrib['Type']] (line 327). *)
Definition impact_type (x : R) : string :=
  if Rlt_dec 0 x then "Increases Risk" else "Decreases Risk".

(** [df_contrib] with its ['Type'] column: ('Risk Factor', 'Impact', 'Type'). *)
Definition with_type (df : list (string * R)) : list (string * R * string) :=
  map (fun row => (fst row, snd row, impact_type (snd row))) df.

(** [df_contrib.head(6)]: the rows of the bar chart (line 330). *)
Definition chart_rows (df : list (string * R)) : list (string * R * string) :=
  firstn 6 (with_type df).

(* ------------------------------------------------------------------ *)
(** ** Sample artifacts and inputs for the examples *)

(** Inputs at 0 with a one-value scaler and a model of 21 unit
    coefficients; limits with no lower bound; inputs at -1. *)
Definition demo_input : raw_input :=
  {| mlr := 0; crp := 0; tg := 0; nlr := 0; ijvc := 1; sex := 1 |}.
Definition demo_scaler : std_scaler :=
  {| sc_feature_names_in_ := None; n_features_in_ := 21; with_mean := true;
     with_std := true; mean_ := [0]; scale_ := [1] |}.
Definition demo_model : logreg :=
  {| coef_ := repeat 1 21; intercept_ := 0; feature_names_in_ := None |}.

(** A model whose [feature_names_in_] is empty. *)
Definition demo_model_nonames : logreg :=
  {| coef_ := repeat 1 21; intercept_ := 0; feature_names_in_ := Some [] |}.

Definition demo_bad_limits : winsor := [("nlr", [("upper", 20)])]%string.

Definition demo_minus_one : raw_input :=
  {| mlr := -1; crp := -1; tg := -1; nlr := -1; ijvc := 1; sex := 1 |}.

(* ------------------------------------------------------------------ *)
(** ** Auxiliary definitions for the statements *)

(** The 21 column names of [X_final], written out. *)
Definition names21 : list string :=
  ["log_MLR"; "log_CRP"; "log_triglycerides"; "log_NLR"; "IJVC"; "sex";
   "log_MLR*log_CRP"; "log_MLR*log_triglycerides"; "log_MLR*log_NLR";
   "log_MLR*IJVC"; "log_MLR*sex";
   "log_CRP*log_triglycerides"; "log_CRP*log_NLR"; "log_CRP*IJVC"; "log_CRP*sex";
   "log_triglycerides*log_NLR"; "log_triglycerides*IJVC"; "log_triglycerides*sex";
   "log_NLR*IJVC"; "log_NLR*sex";
   "IJVC*sex"]%string.

(** A scaler fitted on a DataFrame: the 21 names, means 0, scales 1. *)
Definition demo_scaler2 : std_scaler :=
  {| sc_feature_names_in_ := Some names21; n_features_in_ := 21; with_mean := true;
     with_std := true; mean_ := repeat 0 21; scale_ := repeat 1 21 |}.

Definition has_key {V} (d : dict V) (k : string) : bool :=
  match dict_get d k with Some _ => true | None => false end.

(** Every base feature is a column of the frame. *)
Definition has_core (df : dict pyfloat) : bool := forallb (has_key df) core_feats.

Definition df_val (df : dict pyfloat) (k : string) : pyfloat :=
  match dict_get df k with Some v => v | None => NaN end.

(** A winsor-limits entry the clamp can read: falsy, or with both bounds. *)
Definition limits_ok (lim : dict R) : bool :=
  negb (dict_truthy lim) || (has_key lim "lower" && has_key lim "upper").

Definition winsor_wellformed (wl : winsor) : bool :=
  forallb (fun kv => limits_ok (snd kv)) wl.

(** A scaler as [fit] leaves it on the 21 columns of [X_final]. *)
Definition fitted_scaler (sc : std_scaler) : Prop :=
  (sc_feature_names_in_ sc = None \/ sc_feature_names_in_ sc = Some names21) /\
  n_features_in_ sc = 21%nat /\
  (with_mean sc = true -> List.length (mean_ sc) = 21%nat) /\
  (with_std sc = true -> List.length (scale_ sc) = 21%nat /\ Forall (fun s => s <> 0) (scale_ sc)).

(** [argsort] sorts [keys]: a permutation of the indices, in ascending
    order of the keys. *)
Definition argsort_sorts (argsort : argsort_fn) (keys : list R) : Prop :=
  Permutation (argsort keys) (seq 0 (List.length keys)) /\
  forall p q, (p < q < List.length keys)%nat ->
    nth (nth p (argsort keys) O) keys 0 <= nth (nth q (argsort keys) O) keys 0.

(* ------------------------------------------------------------------ *)
(** ** Invariants of the argsort model

    Used to prove that [NpSort.aquicksort] sorts: an array of indices, the
    pending ranges [(pl, pr)] of the quicksort stack, and the ordering of
    the indices by a key. *)

Module SortInv.

(** Two index arrays hold the same multiset. *)
Definition same_counts (a b : list nat) : Prop :=
  forall y, count_occ Nat.eq_dec a y = count_occ Nat.eq_dec b y.

Definition zlen (a : list nat) : Z := Z.of_nat (List.length a).

(** [a'] differs from [a] only inside [l..r], every entry there comes from
    [l..r] of [a], and both hold the same multiset. *)
Definition frame (a a' : list nat) (l r : Z) : Prop :=
  List.length a' = List.length a /\
  (forall p, (0 <= p)%Z -> (p < l \/ r < p)%Z -> NpSort.get a' p = NpSort.get a p) /\
  (forall p, (l <= p <= r)%Z -> exists q, (l <= q <= r)%Z /\ NpSort.get a' p = NpSort.get a q) /\
  same_counts a' a.

Definition in_seg (s : Z * Z) (p : Z) : Prop := (fst s <= p <= snd s)%Z.

Definition disj (s1 s2 : Z * Z) : Prop := forall p, in_seg s1 p -> in_seg s2 p -> False.

(** A pending range inside the array, possibly empty. *)
Definition seg_ok (n : Z) (s : Z * Z) : Prop :=
  (0 <= fst s)%Z /\ (snd s < n)%Z /\ (fst s <= snd s + 1)%Z.

Definition segs_of (st : list (Z * Z * Z)) : list (Z * Z) := map fst st.

(** Every pushed range has a depth budget left for its own partitions. *)
Definition stack_ok (st : list (Z * Z * Z)) : Prop :=
  Forall (fun e => (0 <= snd e)%Z /\ (snd (fst e) - fst (fst e) + 1 <= 17 + snd e)%Z) st.

(** Termination measure of the outer loop: [2 * size + 1] per range. *)
Definition wsum (segs : list (Z * Z)) : Z :=
  fold_right (fun s acc => 2 * (snd s - fst s + 1) + 1 + acc)%Z 0%Z segs.

Section Keyed.
Variable key : nat -> R.

(** [less] of [npy::quicksort] on the key of each index. *)
Definition lessk (i j : nat) : bool := Rltb (key i) (key j).

Definition kv (a : list nat) (p : Z) : R := key (NpSort.get a p).

(** One compare-and-swap of the median of three. *)
Definition cs (a : list nat) (p q : Z) : list nat :=
  if lessk (NpSort.get a p) (NpSort.get a q) then NpSort.swap a p q else a.

Definition sorted_rng (a : list nat) (l r : Z) : Prop :=
  forall p q, (l <= p <= q)%Z -> (q <= r)%Z -> kv a p <= kv a q.

(** Sorted except inside each pending range. *)
Definition sorted_mod (a : list nat) (segs : list (Z * Z)) : Prop :=
  forall p q, (0 <= p < q)%Z -> (q < zlen a)%Z ->
  (forall s, In s segs -> ~ (in_seg s p /\ in_seg s q)) -> kv a p <= kv a q.

(** The loop invariant of [qs_outer]. *)
Definition qs_inv (n : Z) (a0 a : list nat) (segs : list (Z * Z)) : Prop :=
  zlen a = n /\ same_counts a a0 /\ sorted_mod a segs /\
  ForallOrdPairs disj segs /\ Forall (seg_ok n) segs.

End Keyed.
End SortInv.

(* ------------------------------------------------------------------ *)
(** ** Lemmas on the preprocessing and the expansion *)

Lemma dict_get_app {V} (d1 d2 : dict V) k :
  dict_get (d1 ++ d2) k =
  match dict_get d1 k with Some v => Some v | None => dict_get d2 k end.
Proof.
  induction d1 as [|[k' v] t IH]; simpl; [reflexivity|].
  destruct (String.eqb k' k); auto.
Qed.

Lemma has_key_get {V} (d : dict V) k :
  has_key d k = true -> exists v, dict_get d k = Some v.
Proof. unfold has_key; destruct (dict_get d k); [eauto | discriminate]. Qed.

Lemma expand_spec df :
  has_core df = true ->
  expand df =
  Ok (map (fun f => (f, df_val df f)) core_feats ++
      map (fun p => (inter_name (fst p) (snd p),
                     pf_mul (df_val df (fst p)) (df_val df (snd p))))
          (combinations2 core_feats)).
Proof.
  unfold has_core, has_key, df_val, expand, dict_getitem; simpl. intros H.
  repeat match type of H with
  | context [match dict_get df ?k with _ => _ end] =>
      destruct (dict_get df k); simpl in H; [|discriminate]
  end.
  reflexivity.
Qed.

Lemma expand_names df X :
  expand df = Ok X -> has_core df = true -> map fst X = names21.
Proof.
  intros E H. rewrite (expand_spec df H) in E. injection E as <-. reflexivity.
Qed.

Lemma find_limits_in col wl lim :
  find_limits col wl = Some lim -> exists k, In (k, lim) wl.
Proof.
  induction wl as [|[k l] t IH]; simpl; [discriminate|].
  destruct (String.eqb _ _).
  - intros [= <-]. eauto.
  - intros E. destruct (IH E) as [k' Hk]. eauto.
Qed.

Lemma clamp_and_log_ok wl col v :
  winsor_wellformed wl = true -> exists t, clamp_and_log wl col v = Ok t.
Proof.
  unfold clamp_and_log. intros Hw.
  destruct (find_limits col wl) as [lim|] eqn:E; [|eauto].
  destruct (find_limits_in _ _ _ E) as [k Hk].
  unfold winsor_wellformed in Hw. rewrite forallb_forall in Hw.
  specialize (Hw _ Hk). unfold limits_ok in Hw. simpl in Hw.
  destruct (dict_truthy lim); simpl in Hw; [|eauto].
  apply andb_prop in Hw as [Hl Hu].
  apply has_key_get in Hl as [lo Hl]. apply has_key_get in Hu as [up Hu].
  unfold dict_getitem. rewrite Hl, Hu. simpl. eauto.
Qed.

(** The loop always yields the four [log_*] columns, in this order. *)
Lemma preprocess_shape wl r logs :
  preprocess wl (input_data r) numeric_cols = Ok logs ->
  exists a b c d, logs = [("log_MLR", a); ("log_CRP", b);
                          ("log_triglycerides", c); ("log_NLR", d)]%string.
Proof.
  simpl.
  destruct (clamp_and_log wl "MLR" (mlr r)); simpl; [|discriminate].
  destruct (clamp_and_log wl "CRP" (crp r)); simpl; [|discriminate].
  destruct (clamp_and_log wl "triglycerides" (tg r)); simpl; [|discriminate].
  destruct (clamp_and_log wl "NLR" (nlr r)); simpl; [|discriminate].
  intros [= <-]. eauto 6.
Qed.

Lemma preprocess_wellformed_ok wl r :
  winsor_wellformed wl = true ->
  exists logs, preprocess wl (input_data r) numeric_cols = Ok logs.
Proof.
  intros Hw. simpl.
  destruct (clamp_and_log_ok wl "MLR" (mlr r) Hw) as [a ->].
  destruct (clamp_and_log_ok wl "CRP" (crp r) Hw) as [b ->].
  destruct (clamp_and_log_ok wl "triglycerides" (tg r) Hw) as [c ->].
  destruct (clamp_and_log_ok wl "NLR" (nlr r) Hw) as [d ->].
  simpl. eauto.
Qed.

Lemma df_input_has_core r a b c d :
  has_core (df_input (input_data r)
              [("log_MLR", a); ("log_CRP", b);
               ("log_triglycerides", c); ("log_NLR", d)]%string) = true.
Proof. reflexivity. Qed.

Lemma Rmax_py lo x : py_max lo x = Rmax lo x.
Proof.
  unfold py_max, Rmax. destruct (Rlt_dec lo x), (Rle_dec lo x); lra.
Qed.

Lemma Rmin_py x up : py_min x up = Rmin x up.
Proof.
  unfold py_min, Rmin. destruct (Rlt_dec up x), (Rle_dec x up); lra.
Qed.

Lemma np_log1p_below x : x < -1 -> np_log1p x = NaN.
Proof.
  intros H. unfold np_log1p.
  destruct (Rlt_dec (-1) x); [lra|].
  destruct (Req_EM_T x (-1)); [lra|reflexivity].
Qed.

Lemma np_log1p_at : np_log1p (-1) = NegInf.
Proof.
  unfold np_log1p.
  destruct (Rlt_dec (-1) (-1)); [lra|].
  destruct (Req_EM_T (-1) (-1)); [reflexivity|lra].
Qed.

(* ------------------------------------------------------------------ *)
(** ** Claims on the preprocessing and the expansion *)

(** C1: from any frame holding the six base features, [X_final] has exactly
    21 columns: the six main effects in the order log_MLR, log_CRP,
    log_triglycerides, log_NLR, IJVC, sex, then the 15 products
    [c1*c2] in [itertools.combinations] order; two invocations give the
    same names. *)
Theorem expand_feature_names : forall df1 df2,
  has_core df1 = true -> has_core df2 = true ->
  exists X1 X2,
    expand df1 = Ok X1 /\ expand df2 = Ok X2 /\
    map fst X1 = names21 /\ List.length X1 = 21%nat /\
    map fst X2 = map fst X1 /\
    X1 = map (fun f => (f, df_val df1 f)) core_feats ++
         map (fun p => (inter_name (fst p) (snd p),
                        pf_mul (df_val df1 (fst p)) (df_val df1 (snd p))))
             (combinations2 core_feats).
Proof.
  intros df1 df2 H1 H2.
  eexists; eexists.
  split; [apply (expand_spec df1 H1)|].
  split; [apply (expand_spec df2 H2)|].
  split; [reflexivity|]. split; [reflexivity|]. split; reflexivity.
Qed.

Lemma expand_feature_names_witness :
  has_core (map (fun f => (f, Fin 1)) core_feats) = true /\
  has_core (map (fun f => (f, Fin 2)) core_feats) = true /\
  exists X1 X2,
    expand (map (fun f => (f, Fin 1)) core_feats) = Ok X1 /\
    expand (map (fun f => (f, Fin 2)) core_feats) = Ok X2 /\
    map fst X1 = names21 /\ List.length X1 = 21%nat /\
    map fst X2 = map fst X1 /\
    X1 = map (fun f => (f, df_val (map (fun f => (f, Fin 1)) core_feats) f)) core_feats ++
         map (fun p => (inter_name (fst p) (snd p),
                        pf_mul (df_val (map (fun f => (f, Fin 1)) core_feats) (fst p))
                               (df_val (map (fun f => (f, Fin 1)) core_feats) (snd p))))
             (combinations2 core_feats).
Proof.
  split; [reflexivity|]. split; [reflexivity|].
  apply expand_feature_names; reflexivity.
Defined.

(** C2: when the limits of a variable are found (with [lower <= upper]),
    the value is clamped, [v = max(lower, min(raw, upper))], then [log1p]:
    below [lower] it gives [log1p(lower)], above [upper] [log1p(upper)],
    inside the bounds [log1p(raw)]. *)
Theorem clamp_then_log1p : forall wl col v lim lo up,
  find_limits col wl = Some lim -> dict_truthy lim = true ->
  dict_get lim "lower"%string = Some lo -> dict_get lim "upper"%string = Some up ->
  lo <= up ->
  clamp_and_log wl col v = Ok (np_log1p (Rmax lo (Rmin v up))) /\
  (v < lo -> clamp_and_log wl col v = Ok (np_log1p lo)) /\
  (up < v -> clamp_and_log wl col v = Ok (np_log1p up)) /\
  (lo <= v <= up -> clamp_and_log wl col v = Ok (np_log1p v)).
Proof.
  intros wl col v lim lo up Hf Ht Hl Hu Hle.
  assert (E : clamp_and_log wl col v = Ok (np_log1p (Rmax lo (Rmin v up)))).
  { unfold clamp_and_log, dict_getitem. rewrite Hf, Ht, Hl, Hu. simpl.
    rewrite Rmax_py, Rmin_py. reflexivity. }
  rewrite E. repeat split.
  - intros H. f_equal. f_equal.
    unfold Rmax, Rmin. destruct (Rle_dec v up); destruct (Rle_dec lo _); lra.
  - intros H. f_equal. f_equal.
    unfold Rmax, Rmin. destruct (Rle_dec v up); [lra|]. destruct (Rle_dec lo up); lra.
  - intros H. f_equal. f_equal.
    unfold Rmax, Rmin. destruct (Rle_dec v up); [|lra]. destruct (Rle_dec lo v); lra.
Qed.

Lemma clamp_then_log1p_witness :
  let wl := [("MLR", [("lower", 0); ("upper", 2)])]%string in
  find_limits "MLR" wl = Some [("lower", 0); ("upper", 2)]%string /\
  clamp_and_log wl "MLR" 3 = Ok (np_log1p (Rmax 0 (Rmin 3 2))) /\
  (3 < 0 -> clamp_and_log wl "MLR" 3 = Ok (np_log1p 0)) /\
  (2 < 3 -> clamp_and_log wl "MLR" 3 = Ok (np_log1p 2)) /\
  (0 <= 3 <= 2 -> clamp_and_log wl "MLR" 3 = Ok (np_log1p 3)).
Proof.
  intros wl. split; [reflexivity|].
  apply (clamp_then_log1p wl "MLR" 3 [("lower", 0); ("upper", 2)]%string 0 2);
    [reflexivity | reflexivity | reflexivity | reflexivity | lra].
Defined.

Lemma find_limits_skip col pre l :
  Forall (fun k => PyStr.norm k <> PyStr.norm col) (map fst pre) ->
  find_limits col (pre ++ l) = find_limits col l.
Proof.
  induction pre as [|[k lim] t IH]; simpl; [reflexivity|].
  intros H. inversion H as [|? ? Hk Ht]; subst.
  destruct (String.eqb_spec (PyStr.norm k) (PyStr.norm col)); [contradiction|].
  apply IH; assumption.
Qed.

Lemma find_limits_norm col wl lim :
  find_limits col wl = Some lim -> exists k, In (k, lim) wl /\ PyStr.norm k = PyStr.norm col.
Proof.
  induction wl as [|[k l] t IH]; simpl; [discriminate|].
  destruct (String.eqb_spec (PyStr.norm k) (PyStr.norm col)) as [E|E].
  - intros [= <-]. eauto.
  - intros F. destruct (IH F) as (k' & Hk & Hn). eauto.
Qed.

(** C4: the limits of a variable are looked up on [strip().lower()] of the
    keys and of the name: the first key whose normal form is that of the
    name serves it, wherever it stands in the dict (so a key ["crp"],
    [" crp "] or ["\xa0crp"] serves ["CRP"]); a key is only used when its
    normal form matches; with no matching key the raw value is
    log-transformed unclamped. *)
Theorem winsor_lookup_case_insensitive :
  (forall pre lim post,
     Forall (fun k => PyStr.norm k <> "crp"%string) (map fst pre) ->
     find_limits "CRP" (pre ++ ("crp"%string, lim) :: post) = Some lim /\
     find_limits "CRP" (pre ++ (" crp "%string, lim) :: post) = Some lim /\
     find_limits "CRP" (pre ++ (String (ascii_of_nat 160) "crp", lim) :: post) = Some lim) /\
  (forall col pre k lim post,
     Forall (fun k' => PyStr.norm k' <> PyStr.norm col) (map fst pre) ->
     PyStr.norm k = PyStr.norm col ->
     find_limits col (pre ++ (k, lim) :: post) = Some lim) /\
  (forall col wl lim, find_limits col wl = Some lim ->
     exists k, In (k, lim) wl /\ PyStr.norm k = PyStr.norm col) /\
  (forall wl col v, Forall (fun k => PyStr.norm k <> PyStr.norm col) (map fst wl) ->
     find_limits col wl = None /\ clamp_and_log wl col v = Ok (np_log1p v)).
Proof.
  split; [|split; [|split]].
  - intros pre lim post H.
    change "crp"%string with (PyStr.norm "CRP") in H.
    rewrite !find_limits_skip by exact H. repeat split; reflexivity.
  - intros col pre k lim post H Hk. rewrite find_limits_skip by exact H.
    simpl. rewrite Hk, String.eqb_refl. reflexivity.
  - exact find_limits_norm.
  - intros wl col v H.
    assert (N : find_limits col wl = None).
    { rewrite <- (app_nil_r wl). rewrite find_limits_skip by exact H. reflexivity. }
    split; [exact N|]. unfold clamp_and_log. rewrite N. reflexivity.
Qed.

Lemma winsor_lookup_case_insensitive_witness :
  Forall (fun k => PyStr.norm k <> "crp"%string) (map fst [("MLR", [("lower", 0)])]%string) /\
  find_limits "CRP" ([("MLR"%string, [("lower"%string, 0)])] ++
                     (String (ascii_of_nat 160) "crp", [("upper"%string, 1)]) :: [])
  = Some [("upper"%string, 1)].
Proof.
  assert (H : Forall (fun k => PyStr.norm k <> "crp"%string) (map fst [("MLR", [("lower", 0)])]%string)).
  { constructor; [vm_compute; discriminate|constructor]. }
  split; [exact H|].
  exact (proj2 (proj2 (proj1 winsor_lookup_case_insensitive _ [("upper", 1)]%string [] H))).
Defined.

(** C10: a matched but falsy (empty) limits entry skips the clamp, exactly
    as when no key matches. *)
Theorem empty_limits_skip_clamp : forall wl col v,
  find_limits col wl = Some [] ->
  clamp_and_log wl col v = Ok (np_log1p v) /\
  clamp_and_log wl col v = clamp_and_log [] col v.
Proof.
  intros wl col v H. unfold clamp_and_log. rewrite H. simpl. split; reflexivity.
Qed.

Lemma empty_limits_skip_clamp_witness :
  find_limits "MLR" [("mlr", [])]%string = Some [] /\
  clamp_and_log [("mlr", [])]%string "MLR" 3 = Ok (np_log1p 3) /\
  clamp_and_log [("mlr", [])]%string "MLR" 3 = clamp_and_log [] "MLR" 3.
Proof.
  split; [reflexivity|]. apply empty_limits_skip_clamp. reflexivity.
Defined.

(** C5 (counterexample): with limits [lower = -3, upper = -2] the clamped
    value is -2 and [np.log1p] returns nan; no exception is raised. *)
Lemma log1p_nan_not_raised :
  clamp_and_log [("MLR", [("lower", -3); ("upper", -2)])]%string "MLR" (4 / 10)
  = Ok NaN.
Proof.
  unfold clamp_and_log, dict_getitem. simpl.
  rewrite Rmax_py, Rmin_py.
  replace (Rmax (-3) (Rmin (4 / 10) (-2))) with (-2).
  - apply f_equal, np_log1p_below. lra.
  - unfold Rmax, Rmin. destruct (Rle_dec (4/10) (-2)); [lra|].
    destruct (Rle_dec (-3) (-2)); lra.
Qed.

(* ------------------------------------------------------------------ *)
(** ** Lemmas on scaling, scoring and contributions *)

Lemma broadcast_same_length {A} (op : A -> R -> A) xs ps :
  List.length ps = List.length xs ->
  broadcast op xs ps = Ok (map (fun p => op (fst p) (snd p)) (combine xs ps)).
Proof.
  intros E. unfold broadcast. rewrite E, Nat.eqb_refl. reflexivity.
Qed.

Lemma broadcast_length {A} (op : A -> R -> A) xs ps ys :
  broadcast op xs ps = Ok ys -> List.length ys = List.length xs.
Proof.
  unfold broadcast. destruct (Nat.eqb_spec (List.length ps) (List.length xs)) as [E|E].
  - intros [= <-]. rewrite length_map, length_combine, E. apply Nat.min_id.
  - destruct ps as [|p [|q t]]; try (destruct (Nat.eqb _ 1); discriminate).
    intros [= <-]. apply length_map.
Qed.

Lemma broadcast_err {A} (op : A -> R -> A) xs ps e :
  broadcast op xs ps = Err e -> exists msg, e = ValueError msg.
Proof.
  unfold broadcast. destruct (Nat.eqb _ _); [discriminate|].
  destruct ps as [|p [|q t]]; try discriminate;
    destruct (Nat.eqb _ 1); intros [= <-]; eauto.
Qed.

(** Every value of the result is [op x p] for a value [x] of the row and a
    parameter [p]. *)
Lemma broadcast_forall {A} (P : A -> Prop) (op : A -> R -> A) xs ps ys :
  (forall x p, In p ps -> P x -> P (op x p)) -> Forall P xs ->
  broadcast op xs ps = Ok ys -> Forall P ys.
Proof.
  intros Hop Hx. rewrite Forall_forall in Hx |- *. unfold broadcast.
  destruct (Nat.eqb _ _).
  - intros [= <-] y Hy. apply in_map_iff in Hy as ([x p] & <- & Hin).
    apply Hop; [exact (in_combine_r _ _ _ _ Hin)|]. apply Hx. exact (in_combine_l _ _ _ _ Hin).
  - destruct ps as [|p [|q t]]; try (destruct (Nat.eqb _ 1); discriminate).
    intros [= <-] y Hy. apply in_map_iff in Hy as (x & <- & Hin). apply Hop; [left|]; auto.
Qed.

(** A value fixed by [op] stays in the row. *)
Lemma broadcast_keeps {A} (op : A -> R -> A) (x0 : A) xs ps ys :
  (forall p, op x0 p = x0) -> In x0 xs -> broadcast op xs ps = Ok ys -> In x0 ys.
Proof.
  intros Hop Hin. unfold broadcast.
  destruct (Nat.eqb_spec (List.length ps) (List.length xs)) as [E|E].
  - intros [= <-]. revert ps E. induction xs as [|x t IH]; [destruct Hin|].
    intros [|p ps] E; [discriminate|]. simpl in E |- *.
    destruct Hin as [<-|Hin].
    + left. apply Hop.
    + right. apply IH; [exact Hin|lia].
  - destruct ps as [|p [|q t]]; try (destruct (Nat.eqb _ 1); discriminate).
    intros [= <-]. apply in_map_iff. exists x0. split; [apply Hop|exact Hin].
Qed.

Lemma check_feature_names_err fitted xnames e :
  check_feature_names fitted xnames = Err e -> exists msg, e = ValueError msg.
Proof.
  unfold check_feature_names. destruct fitted; [|discriminate].
  destruct (list_eq_dec _ _ _); [discriminate|]. intros [= <-]. eauto.
Qed.

Lemma scaler_transform_ok sc X ys :
  scaler_transform sc X = Ok ys ->
  List.length ys = List.length X /\ n_features_in_ sc = List.length X.
Proof.
  unfold scaler_transform.
  destruct (check_feature_names _ _); cbn [bind]; [|discriminate].
  destruct (existsb is_inf (map snd X)); [discriminate|].
  rewrite length_map.
  destruct (Nat.eqb_spec (List.length X) (n_features_in_ sc)) as [E|E]; [|discriminate].
  cbn [negb].
  destruct (with_mean sc) eqn:Wm;
    [destruct (broadcast pf_sub (map snd X) (mean_ sc)) as [zs|] eqn:B1|];
    cbn [bind]; try discriminate;
    [apply broadcast_length in B1; rewrite length_map in B1|];
    (destruct (with_std sc);
     [intros B2; apply broadcast_length in B2|intros [= <-]]);
    rewrite ?length_map in *; lia.
Qed.

Lemma scaler_transform_err sc X e :
  scaler_transform sc X = Err e -> exists msg, e = ValueError msg.
Proof.
  unfold scaler_transform.
  destruct (check_feature_names _ _) as [u|e'] eqn:C; cbn [bind].
  2: intros [= <-]; eapply check_feature_names_err; eauto.
  destruct (existsb is_inf (map snd X)); [intros [= <-]; eauto|].
  destruct (negb _); [intros [= <-]; eauto|].
  destruct (with_mean sc);
    [destruct (broadcast pf_sub (map snd X) (mean_ sc)) as [zs|e'] eqn:B1|];
    cbn [bind];
    try (intros [= <-]; eapply broadcast_err; eauto);
    (destruct (with_std sc); [apply broadcast_err|discriminate]).
Qed.

Lemma lr_check_array_ok xs rs :
  lr_check_array xs = Ok rs -> map Fin rs = xs.
Proof.
  revert rs. induction xs as [|x t IH]; intros rs; simpl.
  - intros [= <-]. reflexivity.
  - destruct x; try discriminate.
    destruct (lr_check_array t) as [rs'|] eqn:E; cbn [bind]; [|discriminate].
    intros [= <-]. simpl. f_equal. apply IH. reflexivity.
Qed.

Lemma lr_check_array_err xs e :
  lr_check_array xs = Err e -> exists msg, e = ValueError msg.
Proof.
  induction xs as [|x t IH]; simpl; [discriminate|].
  destruct x; try (intros [= <-]; eauto).
  destruct (lr_check_array t); cbn [bind]; [discriminate|]. exact IH.
Qed.

(** A nan in the row, and no infinity: the nan message. *)
Lemma lr_check_array_nan xs :
  In NaN xs -> Forall (fun x => is_inf x = false) xs ->
  lr_check_array xs = Err (ValueError nan_msg_lr).
Proof.
  induction xs as [|x t IH]; simpl; [tauto|].
  intros Hin Hf. inversion Hf as [|? ? Hx Ht]; subst.
  destruct x; try discriminate; [|reflexivity].
  destruct Hin as [Hin|Hin]; [discriminate|].
  rewrite (IH Hin Ht). reflexivity.
Qed.

Lemma lr_check_array_nan_err xs :
  In NaN xs -> exists msg, lr_check_array xs = Err (ValueError msg).
Proof.
  induction xs as [|x t IH]; simpl; [tauto|].
  intros [E|Hin]; [subst x; eauto|].
  destruct x; eauto.
  destruct (IH Hin) as [msg E]. rewrite E. cbn [bind]. eauto.
Qed.

Lemma request_after_expand wl sc m r logs X :
  preprocess wl (input_data r) numeric_cols = Ok logs ->
  expand (df_input (input_data r) logs) = Ok X ->
  request wl sc m r =
  match scaler_transform sc X with
  | Err e => PredictionError e X
  | Ok ys =>
      match lr_check_array ys with
      | Err e => PredictionError e X
      | Ok xs =>
          match predict_proba m xs with
          | Err e => PredictionError e X
          | Ok p =>
              match contributions (match feature_names_in_ m with
                                   | Some fs => fs | None => map fst X end)
                                  (coef_ m) xs with
              | [] => ShownThenError p (KeyError "Impact") X
              | rows => Shown p (sort_by_abs_desc rows)
              end
          end
      end
  end.
Proof. intros Hp He. unfold request. rewrite Hp, He. reflexivity. Qed.

Lemma contributions_cons n ns c cs x xs :
  contributions (n :: ns) (c :: cs) (x :: xs) = (readable n, c * x) :: contributions ns cs xs.
Proof. reflexivity. Qed.

Lemma contributions_facts names cs xs :
  List.length names = List.length xs -> List.length cs = List.length xs ->
  List.length (contributions names cs xs) = List.length xs /\
  (forall i, (i < List.length xs)%nat ->
     snd (nth i (contributions names cs xs) (""%string, 0)) = nth i cs 0 * nth i xs 0) /\
  fold_right Rplus 0 (map snd (contributions names cs xs)) = dot cs xs.
Proof.
  revert names cs. induction xs as [|x xs IH]; intros names cs Hn Hc.
  - destruct names, cs; try discriminate.
    split; [reflexivity|]. split; [intros i Hi; simpl in Hi; lia|reflexivity].
  - destruct names as [|n ns], cs as [|c cs']; try discriminate.
    simpl in Hn, Hc. injection Hn as Hn. injection Hc as Hc.
    destruct (IH ns cs' Hn Hc) as (L & N & S).
    rewrite contributions_cons. repeat split.
    + simpl. rewrite L. reflexivity.
    + intros [|i] Hi; [reflexivity|]. simpl. apply N. simpl in Hi. lia.
    + simpl. rewrite S. reflexivity.
Qed.

Lemma replace_at_length {A} (l : list A) i x : List.length (replace_at l i x) = List.length l.
Proof.
  revert i. induction l as [|y t IH]; intros [|i]; simpl; auto.
Qed.

Lemma dot_replace_at cs xs i v :
  List.length cs = List.length xs -> (i < List.length xs)%nat ->
  dot cs (replace_at xs i v) = dot cs xs + nth i cs 0 * (v - nth i xs 0).
Proof.
  revert cs i. induction xs as [|x xs IH]; intros cs i Hl Hi; simpl in Hi; [lia|].
  destruct cs as [|c cs]; [discriminate|]. simpl in Hl. injection Hl as Hl.
  destruct i as [|i]; simpl.
  - ring.
  - rewrite (IH cs i Hl ltac:(lia)). ring.
Qed.

Lemma expit_le z z' : z <= z' -> expit z <= expit z'.
Proof.
  intros H. unfold expit, Rdiv. rewrite !Rmult_1_l.
  apply Rinv_le_contravar.
  - pose proof (exp_pos (- z')). lra.
  - destruct H as [H|<-]; [|lra].
    pose proof (exp_increasing (- z') (- z) ltac:(lra)). lra.
Qed.

Lemma clamp_and_log_log1p wl col v t :
  clamp_and_log wl col v = Ok t -> exists x, t = np_log1p x.
Proof.
  unfold clamp_and_log.
  destruct (find_limits col wl) as [lim|]; [|intros [= <-]; eauto].
  destruct (dict_truthy lim); [|intros [= <-]; eauto].
  destruct (dict_getitem lim "lower"); cbn [bind]; [|discriminate].
  destruct (dict_getitem lim "upper"); cbn [bind]; [|discriminate].
  intros [= <-]. eauto.
Qed.

(** Every [log_*] value is an output of [np.log1p]. *)
Lemma preprocess_log1p wl r logs :
  preprocess wl (input_data r) numeric_cols = Ok logs ->
  Forall (fun t => exists x, t = np_log1p x) (map snd logs).
Proof.
  simpl.
  destruct (clamp_and_log wl "MLR" (mlr r)) eqn:E1; simpl; [|discriminate].
  destruct (clamp_and_log wl "CRP" (crp r)) eqn:E2; simpl; [|discriminate].
  destruct (clamp_and_log wl "triglycerides" (tg r)) eqn:E3; simpl; [|discriminate].
  destruct (clamp_and_log wl "NLR" (nlr r)) eqn:E4; simpl; [|discriminate].
  intros [= <-]. simpl.
  repeat constructor; eapply clamp_and_log_log1p; eassumption.
Qed.

Lemma np_log1p_not_inf x : np_log1p x <> NegInf -> is_inf (np_log1p x) = false.
Proof.
  unfold np_log1p. destruct (Rlt_dec (-1) x); [reflexivity|].
  destruct (Req_EM_T x (-1)); [congruence|reflexivity].
Qed.

Lemma pf_mul_not_inf a b : is_inf a = false -> is_inf b = false -> is_inf (pf_mul a b) = false.
Proof. destruct a, b; simpl; congruence. Qed.

(** The values of [X_final], in column order. *)
Lemma X_values r a b c d X :
  expand (df_input (input_data r) [("log_MLR", a); ("log_CRP", b);
           ("log_triglycerides", c); ("log_NLR", d)]%string) = Ok X ->
  map snd X =
  [a; b; c; d; Fin (IZR (ijvc r)); Fin (IZR (sex r));
   pf_mul a b; pf_mul a c; pf_mul a d; pf_mul a (Fin (IZR (ijvc r))); pf_mul a (Fin (IZR (sex r)));
   pf_mul b c; pf_mul b d; pf_mul b (Fin (IZR (ijvc r))); pf_mul b (Fin (IZR (sex r)));
   pf_mul c d; pf_mul c (Fin (IZR (ijvc r))); pf_mul c (Fin (IZR (sex r)));
   pf_mul d (Fin (IZR (ijvc r))); pf_mul d (Fin (IZR (sex r)));
   pf_mul (Fin (IZR (ijvc r))) (Fin (IZR (sex r)))].
Proof.
  rewrite expand_spec by apply df_input_has_core. intros [= <-]. reflexivity.
Qed.

Lemma X_values_not_inf a b c d i s :
  Forall (fun v => is_inf v = false) [a; b; c; d] ->
  Forall (fun v => is_inf v = false)
  [a; b; c; d; Fin i; Fin s;
   pf_mul a b; pf_mul a c; pf_mul a d; pf_mul a (Fin i); pf_mul a (Fin s);
   pf_mul b c; pf_mul b d; pf_mul b (Fin i); pf_mul b (Fin s);
   pf_mul c d; pf_mul c (Fin i); pf_mul c (Fin s);
   pf_mul d (Fin i); pf_mul d (Fin s); pf_mul (Fin i) (Fin s)].
Proof.
  intros H. inversion H as [|? ? Ha T1]; inversion T1 as [|? ? Hb T2];
    inversion T2 as [|? ? Hc T3]; inversion T3 as [|? ? Hd _]; subst.
  assert (Fi : is_inf (Fin i) = false) by reflexivity.
  assert (Fs : is_inf (Fin s) = false) by reflexivity.
  repeat constructor; auto using pf_mul_not_inf.
Qed.

Lemma scaler_keeps_nan sc X ys :
  scaler_transform sc X = Ok ys -> In NaN (map snd X) -> In NaN ys.
Proof.
  unfold scaler_transform.
  destruct (check_feature_names _ _); cbn [bind]; [|discriminate].
  destruct (existsb is_inf (map snd X)); [discriminate|].
  destruct (negb _); [discriminate|].
  intros E Hin.
  assert (K : forall zs, (if with_std sc then broadcast pf_div zs (scale_ sc) else Ok zs) = Ok ys ->
                         In NaN zs -> In NaN ys).
  { intros zs. destruct (with_std sc).
    - intros B Hz. exact (broadcast_keeps pf_div NaN zs _ _ (fun _ => eq_refl) Hz B).
    - intros [= ->]. auto. }
  destruct (with_mean sc).
  - destruct (broadcast pf_sub (map snd X) (mean_ sc)) as [zs|] eqn:B; cbn [bind] in E; [|discriminate].
    apply (K zs E). exact (broadcast_keeps pf_sub NaN _ _ _ (fun _ => eq_refl) Hin B).
  - exact (K _ E Hin).
Qed.

Lemma pf_div_fin a s : s <> 0 -> pf_div (Fin a) s = Fin (a / s).
Proof. intros H. unfold pf_div. destruct (Req_EM_T s 0); [contradiction|reflexivity]. Qed.

(** A scaler fitted on the 21 columns accepts a row without infinities;
    the result has none either, keeps any nan and keeps a finite row
    finite. *)
Lemma scaler_transform_fitted sc X :
  fitted_scaler sc -> map fst X = names21 ->
  Forall (fun v => is_inf v = false) (map snd X) ->
  exists ys, scaler_transform sc X = Ok ys /\
    Forall (fun v => is_inf v = false) ys /\ (In NaN (map snd X) -> In NaN ys) /\
    (Forall (fun v => exists a, v = Fin a) (map snd X) -> Forall (fun v => exists a, v = Fin a) ys).
Proof.
  intros (Hn & Hk & Hm & Hsd) HX Hf.
  assert (L : List.length (map snd X) = 21%nat)
    by (rewrite length_map, <- (length_map fst X), HX; reflexivity).
  assert (C : check_feature_names (sc_feature_names_in_ sc) (map fst X) = Ok tt).
  { unfold check_feature_names. destruct Hn as [E|E]; rewrite E; [reflexivity|].
    rewrite HX. destruct (list_eq_dec string_dec names21 names21); congruence. }
  assert (I : existsb is_inf (map snd X) = false).
  { apply not_true_is_false. intros E. apply existsb_exists in E as (v & Hv & Ev).
    rewrite Forall_forall in Hf. rewrite (Hf v Hv) in Ev. discriminate. }
  assert (Hys1 : exists ys1,
     (if with_mean sc then broadcast pf_sub (map snd X) (mean_ sc) else Ok (map snd X)) = Ok ys1 /\
     List.length ys1 = 21%nat /\ Forall (fun v => is_inf v = false) ys1 /\
     (In NaN (map snd X) -> In NaN ys1) /\
     (Forall (fun v => exists a, v = Fin a) (map snd X) -> Forall (fun v => exists a, v = Fin a) ys1)).
  { destruct (with_mean sc) eqn:W.
    - destruct (broadcast pf_sub (map snd X) (mean_ sc)) as [ys1|e] eqn:B.
      + exists ys1. split; [reflexivity|]. split; [rewrite (broadcast_length _ _ _ _ B); exact L|].
        split; [|split].
        * eapply (broadcast_forall (fun v => is_inf v = false)); [|exact Hf|exact B].
          intros x p _ Hx. destruct x; simpl in Hx |- *; congruence.
        * intros Hin. exact (broadcast_keeps pf_sub NaN _ _ _ (fun _ => eq_refl) Hin B).
        * intros HF. eapply (broadcast_forall (fun v => exists a, v = Fin a)); [|exact HF|exact B].
          intros x p _ [a ->]. simpl. eauto.
      + rewrite broadcast_same_length in B; [discriminate|]. rewrite (Hm eq_refl), L. reflexivity.
    - exists (map snd X). repeat split; auto. }
  destruct Hys1 as (ys1 & B1 & L1 & F1 & N1 & G1).
  unfold scaler_transform. rewrite C. cbn [bind]. rewrite I, L, Hk, B1. cbn [Nat.eqb negb bind].
  destruct (with_std sc) eqn:W.
  - destruct (Hsd eq_refl) as [Ls Nz].
    assert (B2 : broadcast pf_div ys1 (scale_ sc) =
                 Ok (map (fun p => pf_div (fst p) (snd p)) (combine ys1 (scale_ sc))))
      by (apply broadcast_same_length; rewrite Ls, L1; reflexivity).
    rewrite Forall_forall in Nz.
    rewrite B2. eexists. split; [reflexivity|]. split; [|split].
    + eapply (broadcast_forall (fun v => is_inf v = false)); [|exact F1|exact B2].
      intros x p Hp Hx. specialize (Nz p Hp).
      destruct x; simpl in Hx; try congruence; simpl;
        destruct (Req_EM_T p 0); try contradiction; reflexivity.
    + intros Hin. exact (broadcast_keeps pf_div NaN _ _ _ (fun _ => eq_refl) (N1 Hin) B2).
    + intros HF. eapply (broadcast_forall (fun v => exists a, v = Fin a)); [|exact (G1 HF)|exact B2].
      intros x p Hp [a ->]. rewrite pf_div_fin by exact (Nz p Hp). eauto.
  - eexists. split; [reflexivity|]. auto.
Qed.

(* ------------------------------------------------------------------ *)
(** ** Claims on scaling, scoring and contributions *)

(** C5 (as the code does it): [np.log1p] yields nan below -1 and -inf at -1
    instead of raising. A nan [log_*] column passes [scaler.transform]
    (which accepts nan) unless an earlier check of the scaler raises, and
    [predict_proba] then rejects it; either way the request ends in the
    "Prediction Error" branch with a [ValueError] and no probability. With
    a scaler as fitted on the 21 columns and no -inf column, the message
    is [LogisticRegression]'s "Input X contains NaN." *)
Theorem log1p_nan_then_prediction_error :
  (forall x, x < -1 -> np_log1p x = NaN) /\ np_log1p (-1) = NegInf /\
  (forall wl sc m r logs,
     preprocess wl (input_data r) numeric_cols = Ok logs ->
     In NaN (map snd logs) ->
     exists msg X, request wl sc m r = PredictionError (ValueError msg) X) /\
  (forall wl sc m r logs,
     preprocess wl (input_data r) numeric_cols = Ok logs ->
     In NaN (map snd logs) -> ~ In NegInf (map snd logs) -> fitted_scaler sc ->
     exists X, request wl sc m r = PredictionError (ValueError nan_msg_lr) X).
Proof.
  split; [exact np_log1p_below|]. split; [exact np_log1p_at|]. split.
  - intros wl sc m r logs Hp Hn.
    destruct (preprocess_shape _ _ _ Hp) as (a & b & c & d & ->).
    pose proof (expand_spec _ (df_input_has_core r a b c d)) as He.
    rewrite (request_after_expand wl sc m r _ _ Hp He).
    destruct (scaler_transform _ _) as [ys|e] eqn:Es.
    + assert (Hy : In NaN ys).
      { apply (scaler_keeps_nan sc _ _ Es). rewrite (X_values _ _ _ _ _ _ He).
        simpl in Hn. simpl. tauto. }
      destruct (lr_check_array_nan_err ys Hy) as [msg ->]. eauto.
    + destruct (scaler_transform_err _ _ _ Es) as [msg ->]. eauto.
  - intros wl sc m r logs Hp Hn Hi Hs.
    pose proof (preprocess_log1p _ _ _ Hp) as Hl.
    destruct (preprocess_shape _ _ _ Hp) as (a & b & c & d & ->).
    pose proof (expand_spec _ (df_input_has_core r a b c d)) as He.
    rewrite (request_after_expand wl sc m r _ _ Hp He).
    cbn [map snd] in Hl, Hi, Hn.
    assert (Hf : Forall (fun v => is_inf v = false) [a; b; c; d]).
    { apply Forall_forall. intros v Hv. rewrite Forall_forall in Hl.
      destruct (Hl v Hv) as [x ->]. apply np_log1p_not_inf.
      intros E. apply Hi. rewrite <- E. exact Hv. }
    assert (HX : Forall (fun v => is_inf v = false) (map snd (map (fun f => (f,
               df_val (df_input (input_data r) [("log_MLR", a); ("log_CRP", b);
                 ("log_triglycerides", c); ("log_NLR", d)]%string) f)) core_feats ++ _)))
      by (rewrite (X_values _ _ _ _ _ _ He); apply X_values_not_inf; exact Hf).
    destruct (scaler_transform_fitted sc _ Hs
                (expand_names _ _ He (df_input_has_core r a b c d)) HX) as (ys & Es & Fy & Ny & _).
    rewrite Es, lr_check_array_nan; [eauto| |exact Fy].
    apply Ny. rewrite (X_values _ _ _ _ _ _ He). simpl in Hn |- *. tauto.
Qed.

(** C7: when the 21 columns of [X_final] do not match the scaler's
    [n_features_in_] or the model's coefficient count, the request ends in
    the "Prediction Error" branch with a [ValueError] and the [X_final]
    debug table; no probability is produced. *)
Theorem shape_mismatch_prediction_error : forall wl sc m r,
  winsor_wellformed wl = true ->
  (n_features_in_ sc <> 21%nat \/ List.length (coef_ m) <> 21%nat) ->
  exists msg X, request wl sc m r = PredictionError (ValueError msg) X /\
                map fst X = names21.
Proof.
  intros wl sc m r Hw Hmis.
  destruct (preprocess_wellformed_ok wl r Hw) as [logs Hp].
  destruct (preprocess_shape _ _ _ Hp) as (a & b & c & d & E). subst logs.
  pose proof (expand_spec _ (df_input_has_core r a b c d)) as He.
  remember (map (fun f => (f, df_val _ f)) core_feats ++ _) as X eqn:EX.
  assert (HX : map fst X = names21) by (subst X; reflexivity).
  assert (LX : List.length X = 21%nat)
    by (rewrite <- (length_map fst X), HX; reflexivity).
  rewrite (request_after_expand wl sc m r _ _ Hp He).
  destruct (scaler_transform sc X) as [ys|e] eqn:Es.
  - destruct (scaler_transform_ok _ _ _ Es) as [Ly Nf].
    destruct (lr_check_array ys) as [xs|e] eqn:El.
    + assert (Lx : List.length xs = List.length ys)
        by (rewrite <- (lr_check_array_ok _ _ El), length_map; reflexivity).
      unfold predict_proba.
      destruct (Nat.eqb_spec (List.length xs) (List.length (coef_ m))) as [Ec|Ec].
      * exfalso. destruct Hmis; lia.
      * eauto.
    + destruct (lr_check_array_err _ _ El) as [msg ->]. eauto.
  - destruct (scaler_transform_err _ _ _ Es) as [msg ->]. eauto.
Qed.

Lemma shape_mismatch_prediction_error_witness :
  winsor_wellformed [] = true /\
  (n_features_in_ {| sc_feature_names_in_ := None; n_features_in_ := 20; with_mean := true;
        with_std := true; mean_ := repeat 0 20; scale_ := repeat 1 20 |}
     <> 21%nat \/ List.length (coef_ {| coef_ := repeat 1 21; intercept_ := 0;
                                         feature_names_in_ := None |}) <> 21%nat) /\
  exists msg X,
    request [] {| sc_feature_names_in_ := None; n_features_in_ := 20; with_mean := true;
        with_std := true; mean_ := repeat 0 20; scale_ := repeat 1 20 |}
      {| coef_ := repeat 1 21; intercept_ := 0; feature_names_in_ := None |}
      {| mlr := 4 / 10; crp := 5; tg := 3 / 2; nlr := 3; ijvc := 2; sex := 1 |}
    = PredictionError (ValueError msg) X /\ map fst X = names21.
Proof.
  split; [reflexivity|]. split; [left; simpl; lia|].
  apply shape_mismatch_prediction_error; [reflexivity | left; simpl; lia].
Defined.

(** C3: each contribution is [coef_[i] * X_scaled[i]], and their sum plus
    the intercept is the linear predictor [z] whose [expit] is the
    probability. *)
Theorem contributions_decompose_z : forall names m xs,
  List.length names = List.length xs -> List.length (coef_ m) = List.length xs ->
  List.length (contributions names (coef_ m) xs) = List.length xs /\
  (forall i, (i < List.length xs)%nat ->
     snd (nth i (contributions names (coef_ m) xs) (""%string, 0))
     = nth i (coef_ m) 0 * nth i xs 0) /\
  fold_right Rplus 0 (map snd (contributions names (coef_ m) xs)) + intercept_ m
  = decision_function m xs /\
  predict_proba m xs = Ok (expit (decision_function m xs)).
Proof.
  intros names m xs Hn Hc.
  destruct (contributions_facts names (coef_ m) xs Hn Hc) as (L & N & S).
  split; [exact L|]. split; [exact N|]. split.
  - rewrite S. reflexivity.
  - unfold predict_proba. rewrite Hc, Nat.eqb_refl. reflexivity.
Qed.

Lemma contributions_decompose_z_witness :
  let m := {| coef_ := [1; -2; 3]; intercept_ := 1 / 2; feature_names_in_ := None |} in
  List.length ["a"; "b"; "c"]%string = List.length [1; 1; 2] /\
  List.length (coef_ m) = List.length [1; 1; 2] /\
  List.length (contributions ["a"; "b"; "c"]%string (coef_ m) [1; 1; 2]) = List.length [1; 1; 2] /\
  (forall i, (i < List.length [1; 1; 2])%nat ->
     snd (nth i (contributions ["a"; "b"; "c"]%string (coef_ m) [1; 1; 2]) (""%string, 0))
     = nth i (coef_ m) 0 * nth i [1; 1; 2] 0) /\
  fold_right Rplus 0 (map snd (contributions ["a"; "b"; "c"]%string (coef_ m) [1; 1; 2]))
    + intercept_ m = decision_function m [1; 1; 2] /\
  predict_proba m [1; 1; 2] = Ok (expit (decision_function m [1; 1; 2])).
Proof.
  intros m. split; [reflexivity|]. split; [reflexivity|].
  apply contributions_decompose_z; reflexivity.
Defined.

(** C8: with a positive coefficient on feature [i], raising [X_scaled[i]]
    (others fixed) never lowers [predict_proba]. *)
Theorem predict_proba_monotone : forall m xs i v,
  List.length (coef_ m) = List.length xs -> (i < List.length xs)%nat ->
  0 < nth i (coef_ m) 0 -> nth i xs 0 <= v ->
  exists p p', predict_proba m xs = Ok p /\
               predict_proba m (replace_at xs i v) = Ok p' /\ p <= p'.
Proof.
  intros m xs i v Hl Hi Hc Hv.
  exists (expit (decision_function m xs)), (expit (decision_function m (replace_at xs i v))).
  unfold predict_proba. rewrite replace_at_length, Hl, Nat.eqb_refl.
  split; [reflexivity|]. split; [reflexivity|].
  apply expit_le. unfold decision_function.
  rewrite (dot_replace_at _ _ _ _ Hl Hi).
  assert (0 <= nth i (coef_ m) 0 * (v - nth i xs 0)) by (apply Rmult_le_pos; lra).
  lra.
Qed.

Lemma predict_proba_monotone_witness :
  let m := {| coef_ := [1; 2]; intercept_ := -1; feature_names_in_ := None |} in
  List.length (coef_ m) = List.length [0; 0] /\ (1 < List.length [0; 0])%nat /\
  0 < nth 1 (coef_ m) 0 /\ nth 1 [0; 0] 0 <= 3 /\
  exists p p', predict_proba m [0; 0] = Ok p /\
               predict_proba m (replace_at [0; 0] 1 3) = Ok p' /\ p <= p'.
Proof.
  intros m.
  assert (H1 : List.length (coef_ m) = List.length [0; 0]) by reflexivity.
  assert (H2 : (1 < List.length [0; 0])%nat) by (simpl; lia).
  assert (H3 : 0 < nth 1 (coef_ m) 0) by (simpl; lra).
  assert (H4 : nth 1 [0; 0] 0 <= 3) by (simpl; lra).
  split; [exact H1|]. split; [exact H2|]. split; [exact H3|]. split; [exact H4|].
  exact (predict_proba_monotone m [0; 0] 1 3 H1 H2 H3 H4).
Defined.

(* ------------------------------------------------------------------ *)
(** ** Claim on loading the artifacts *)

Lemma first_existing_first fs paths b :
  first_existing fs paths = Some b ->
  exists pre post, paths = pre ++ b :: post /\ path_exists fs b = true /\
                   Forall (fun p => path_exists fs p = false) pre.
Proof.
  induction paths as [|p t IH]; simpl; [discriminate|].
  destruct (path_exists fs p) eqn:E.
  - intros [= <-]. exists [], t. repeat split; auto.
  - intros H. destruct (IH H) as (pre & post & -> & Hb & Hpre).
    exists (p :: pre), post. repeat split; auto.
Qed.

Lemma first_existing_model_path fs b :
  first_existing fs model_paths = Some b -> String.eqb b "" = false.
Proof.
  intros H. destruct (first_existing_first _ _ _ H) as (pre & post & E & _ & _).
  assert (Hin : In b model_paths) by (rewrite E; apply in_or_app; right; left; reflexivity).
  simpl in Hin. destruct Hin as [<-|[<-|[<-|[]]]]; reflexivity.
Qed.

(** C9: [load_models] takes the first existing candidate directory of
    [model_paths]; it stops the app when no candidate exists or when the
    model, scaler or winsor-limits file cannot be loaded; a missing
    [data_stats.pkl] is not fatal: stats are [{}] and every default is the
    hardcoded fallback. *)
Theorem load_models_behaviour : forall fs,
  (first_existing fs model_paths = None -> exists msg, load_models fs = Stopped msg) /\
  (forall b, first_existing fs model_paths = Some b ->
     exists pre post, model_paths = pre ++ b :: post /\ path_exists fs b = true /\
                      Forall (fun p => path_exists fs p = false) pre) /\
  (forall b, first_existing fs model_paths = Some b ->
     (load_lr_model fs (path_join b "lr_model.pkl") = None \/
      load_scaler fs (path_join b "scaler.pkl") = None \/
      load_winsor fs (path_join b "winsor_limits.pkl") = None) ->
     exists msg, load_models fs = Stopped msg) /\
  (forall m sc wl stats, load_models fs = Loaded m sc wl stats ->
     exists b, first_existing fs model_paths = Some b /\
       load_lr_model fs (path_join b "lr_model.pkl") = Some m /\
       load_scaler fs (path_join b "scaler.pkl") = Some sc /\
       load_winsor fs (path_join b "winsor_limits.pkl") = Some wl) /\
  (forall b m sc wl, first_existing fs model_paths = Some b ->
     load_lr_model fs (path_join b "lr_model.pkl") = Some m ->
     load_scaler fs (path_join b "scaler.pkl") = Some sc ->
     load_winsor fs (path_join b "winsor_limits.pkl") = Some wl ->
     load_stats fs (path_join b "data_stats.pkl") = None ->
     load_models fs = Loaded m sc wl [] /\
     (forall col fallback, get_default [] col fallback = fallback)).
Proof.
  intros fs. unfold load_models.
  split; [intros ->; eauto|].
  split; [apply first_existing_first|].
  split.
  { intros b Hb Hn. rewrite Hb, (first_existing_model_path _ _ Hb).
    destruct Hn as [ -> | [ -> | -> ] ];
      [ | destruct (load_lr_model fs (path_join b "lr_model.pkl"))
        | destruct (load_lr_model fs (path_join b "lr_model.pkl")),
                   (load_scaler fs (path_join b "scaler.pkl"))];
      eauto. }
  split.
  { intros m sc wl stats.
    destruct (first_existing fs model_paths) as [b|] eqn:Hb; [|discriminate].
    rewrite (first_existing_model_path _ _ Hb).
    destruct (load_lr_model fs (path_join b "lr_model.pkl")) eqn:E1,
             (load_scaler fs (path_join b "scaler.pkl")) eqn:E2,
             (load_winsor fs (path_join b "winsor_limits.pkl")) eqn:E3; try discriminate.
    intros [= <- <- <- _]. eauto. }
  intros b m sc wl Hb E1 E2 E3 E4.
  rewrite Hb, (first_existing_model_path _ _ Hb), E1, E2, E3, E4.
  split; reflexivity.
Qed.

(* ------------------------------------------------------------------ *)
(** ** [NpSort.aquicksort] sorts (no heapsort fallback up to 25 entries) *)

Module SortCorrect.
Import SortInv.

Lemma length_upd l i x : List.length (NpSort.upd l i x) = List.length l.
Proof. revert i; induction l as [|y t IH]; intros [|i]; simpl; auto. Qed.

Lemma nth_upd_eq l i x : (i < List.length l)%nat -> nth i (NpSort.upd l i x) O = x.
Proof.
  revert i; induction l as [|y t IH]; intros [|i] H; simpl in *; try lia; auto.
  apply IH; lia.
Qed.

Lemma nth_upd_neq l i j x : i <> j -> nth j (NpSort.upd l i x) O = nth j l O.
Proof.
  revert i j; induction l as [|y t IH]; intros [|i] [|j] H; simpl; auto; try lia.
  all: apply IH; lia.
Qed.

Lemma count_upd l i x y : (i < List.length l)%nat ->
  (count_occ Nat.eq_dec (NpSort.upd l i x) y +
   (if Nat.eq_dec (nth i l O) y then 1 else 0) =
   count_occ Nat.eq_dec l y + (if Nat.eq_dec x y then 1 else 0))%nat.
Proof.
  revert i; induction l as [|z t IH]; intros [|i] H; simpl in *; try lia.
  - destruct (Nat.eq_dec x y), (Nat.eq_dec z y); lia.
  - specialize (IH i ltac:(lia)). destruct (Nat.eq_dec z y); lia.
Qed.

Lemma length_set a p x : List.length (NpSort.set a p x) = List.length a.
Proof. apply length_upd. Qed.

Lemma get_set_eq a p x : (0 <= p < zlen a)%Z -> NpSort.get (NpSort.set a p x) p = x.
Proof. unfold zlen, NpSort.get, NpSort.set. intros H. apply nth_upd_eq. lia. Qed.

Lemma get_set_neq a p q x : (0 <= p)%Z -> (0 <= q)%Z -> p <> q ->
  NpSort.get (NpSort.set a p x) q = NpSort.get a q.
Proof. unfold NpSort.get, NpSort.set. intros. apply nth_upd_neq. lia. Qed.

Lemma count_set a p x y : (0 <= p < zlen a)%Z ->
  (count_occ Nat.eq_dec (NpSort.set a p x) y +
   (if Nat.eq_dec (NpSort.get a p) y then 1 else 0) =
   count_occ Nat.eq_dec a y + (if Nat.eq_dec x y then 1 else 0))%nat.
Proof. unfold zlen, NpSort.get, NpSort.set. intros H. apply count_upd. lia. Qed.

Lemma zlen_set a p x : zlen (NpSort.set a p x) = zlen a.
Proof. unfold zlen. rewrite length_set. reflexivity. Qed.

Lemma get_swap a p q r : (0 <= p < zlen a)%Z -> (0 <= q < zlen a)%Z -> (0 <= r)%Z ->
  NpSort.get (NpSort.swap a p q) r =
  if Z.eq_dec r p then NpSort.get a q
  else if Z.eq_dec r q then NpSort.get a p else NpSort.get a r.
Proof.
  intros Hp Hq Hr. unfold NpSort.swap.
  destruct (Z.eq_dec r p) as [->|Hrp].
  - rewrite get_set_eq by (rewrite zlen_set; lia). reflexivity.
  - rewrite get_set_neq by lia.
    destruct (Z.eq_dec r q) as [->|Hrq].
    + rewrite get_set_eq by lia. reflexivity.
    + rewrite get_set_neq by lia. reflexivity.
Qed.

Lemma zlen_swap a p q : zlen (NpSort.swap a p q) = zlen a.
Proof. unfold NpSort.swap. rewrite !zlen_set. reflexivity. Qed.

Lemma length_swap a p q : List.length (NpSort.swap a p q) = List.length a.
Proof. unfold NpSort.swap. rewrite !length_set. reflexivity. Qed.

Lemma counts_swap a p q : (0 <= p < zlen a)%Z -> (0 <= q < zlen a)%Z ->
  same_counts (NpSort.swap a p q) a.
Proof.
  intros Hp Hq y. unfold NpSort.swap.
  set (a1 := NpSort.set a q (NpSort.get a p)).
  assert (E : NpSort.get a1 p = NpSort.get a p).
  { unfold a1. destruct (Z.eq_dec p q) as [->|Hn].
    - apply get_set_eq; lia.
    - apply get_set_neq; lia. }
  pose proof (count_set a q (NpSort.get a p) y Hq) as C1.
  assert (Hp1 : (0 <= p < zlen a1)%Z) by (unfold a1; rewrite zlen_set; lia).
  pose proof (count_set a1 p (NpSort.get a q) y Hp1) as C2.
  rewrite E in C2. fold a1 in C1. lia.
Qed.

Lemma frame_refl a l r : frame a a l r.
Proof.
  split; [reflexivity|]. split; [reflexivity|]. split; [|intros y; reflexivity].
  intros p Hp. exists p. split; [lia|reflexivity].
Qed.

Lemma frame_trans a b c l r : frame a b l r -> frame b c l r -> frame a c l r.
Proof.
  intros (L1 & O1 & I1 & C1) (L2 & O2 & I2 & C2).
  split; [lia|]. split; [intros p H0 H; rewrite O2, O1; auto|].
  split.
  - intros p Hp. destruct (I2 p Hp) as (q & Hq & E). destruct (I1 q Hq) as (s & Hs & E').
    exists s. split; [exact Hs|]. congruence.
  - intros y. rewrite C2, C1. reflexivity.
Qed.

Lemma frame_widen a b l r l' r' : (0 <= l')%Z -> (l' <= l)%Z -> (r <= r')%Z -> frame a b l r -> frame a b l' r'.
Proof.
  intros H0' H1 H2 (L & O & I & C). split; [exact L|]. split.
  - intros p H0 H. apply O; lia.
  - split; [|exact C]. intros p Hp.
    destruct (Z_le_gt_dec l p), (Z_le_gt_dec p r).
    1: destruct (I p ltac:(lia)) as (q & Hq & E); exists q; split; [lia|exact E].
    all: exists p; split; [lia|]; apply O; lia.
Qed.

Lemma frame_swap a p q l r : (0 <= l)%Z -> (r < zlen a)%Z ->
  (l <= p <= r)%Z -> (l <= q <= r)%Z -> frame a (NpSort.swap a p q) l r.
Proof.
  intros Hl Hr Hp Hq. split; [apply length_swap|]. split.
  - intros s H0 H. rewrite get_swap by lia.
    destruct (Z.eq_dec s p); [lia|]. destruct (Z.eq_dec s q); [lia|reflexivity].
  - split; [|apply counts_swap; lia].
    intros s Hs. rewrite get_swap by lia.
    destruct (Z.eq_dec s p); [exists q; split; [lia|reflexivity]|].
    destruct (Z.eq_dec s q); [exists p; split; [lia|reflexivity]|].
    exists s. split; [lia|reflexivity].
Qed.

Lemma Rltb_true x y : Rltb x y = true <-> x < y.
Proof. unfold Rltb. destruct (Rlt_dec x y); split; intros; auto; discriminate. Qed.

Lemma Rltb_false x y : Rltb x y = false <-> y <= x.
Proof. unfold Rltb. destruct (Rlt_dec x y); split; intros; try lra; auto; discriminate. Qed.

Section Spec.
Variable key : nat -> R.

Local Abbreviation lessk := (SortInv.lessk key).
Local Abbreviation kv := (SortInv.kv key).
Local Abbreviation cs := (SortInv.cs key).
Local Abbreviation sorted_rng := (SortInv.sorted_rng key).
Local Abbreviation sorted_mod := (SortInv.sorted_mod key).
Local Abbreviation qs_inv := (SortInv.qs_inv key).

Lemma scan_up_spec a vp fuel pi :
  (exists s, (pi < s)%Z /\ (s - pi <= Z.of_nat fuel)%Z /\ key vp <= kv a s) ->
  let k := NpSort.scan_up lessk fuel a vp pi in
  (pi < k)%Z /\ key vp <= kv a k /\ (forall t, (pi < t < k)%Z -> kv a t < key vp).
Proof.
  revert pi; induction fuel as [|f IH]; intros pi (s & H1 & H2 & H3); simpl; [lia|].
  case_eq (lessk (NpSort.get a (pi + 1)) vp); intros E; unfold SortInv.lessk in E.
  - apply Rltb_true in E.
    assert (s <> pi + 1)%Z by (intros ->; unfold SortInv.kv in H3; lra).
    destruct (IH (pi + 1)%Z) as (K1 & K2 & K3).
    + exists s. split; [lia|]. split; [lia|exact H3].
    + split; [lia|]. split; [exact K2|]. intros t Ht.
      destruct (Z.eq_dec t (pi + 1)) as [->|Hn]; [exact E|]. apply K3; lia.
  - apply Rltb_false in E. split; [lia|]. split; [exact E|]. intros t Ht; lia.
Qed.

Lemma scan_down_spec a vp fuel pj :
  (exists s, (s < pj)%Z /\ (pj - s <= Z.of_nat fuel)%Z /\ kv a s <= key vp) ->
  let k := NpSort.scan_down lessk fuel a vp pj in
  (k < pj)%Z /\ kv a k <= key vp /\ (forall t, (k < t < pj)%Z -> key vp < kv a t).
Proof.
  revert pj; induction fuel as [|f IH]; intros pj (s & H1 & H2 & H3); simpl; [lia|].
  case_eq (lessk vp (NpSort.get a (pj - 1))); intros E; unfold SortInv.lessk in E.
  - apply Rltb_true in E.
    assert (s <> pj - 1)%Z by (intros ->; unfold SortInv.kv in H3; lra).
    destruct (IH (pj - 1)%Z) as (K1 & K2 & K3).
    + exists s. split; [lia|]. split; [lia|exact H3].
    + split; [lia|]. split; [exact K2|]. intros t Ht.
      destruct (Z.eq_dec t (pj - 1)) as [->|Hn]; [exact E|]. apply K3; lia.
  - apply Rltb_false in E. split; [lia|]. split; [exact E|]. intros t Ht; lia.
Qed.

Lemma kv_swap a p q t : (0 <= p < zlen a)%Z -> (0 <= q < zlen a)%Z -> (0 <= t)%Z ->
  kv (NpSort.swap a p q) t =
  if Z.eq_dec t p then kv a q else if Z.eq_dec t q then kv a p else kv a t.
Proof.
  intros. unfold SortInv.kv. rewrite get_swap by assumption.
  destruct (Z.eq_dec t p); [reflexivity|]. destruct (Z.eq_dec t q); reflexivity.
Qed.

Lemma part_loop_spec a0 vp pl pr fuel a pi pj :
  (0 <= pl)%Z -> (pr < zlen a0)%Z ->
  frame a0 a (pl + 1) (pr - 2) ->
  (pl <= pi < pj)%Z -> (pj <= pr - 1)%Z ->
  (forall t, (pl <= t <= pi)%Z -> kv a t <= key vp) ->
  (forall t, (pj <= t <= pr - 1)%Z -> key vp <= kv a t) ->
  (pj - pi <= Z.of_nat fuel)%Z ->
  let '(a', k) := NpSort.part_loop lessk fuel a vp pi pj in
  frame a0 a' (pl + 1) (pr - 2) /\ (pl < k <= pr - 1)%Z /\
  (forall t, (pl <= t <= k - 1)%Z -> kv a' t <= key vp) /\
  (forall t, (k <= t <= pr - 1)%Z -> key vp <= kv a' t).
Proof.
  revert a pi pj; induction fuel as [|f IH]; intros a pi pj Hl Hr Fr Hij Hj Lo Hi Hf;
    [simpl in Hf; lia|].
  assert (La : zlen a = zlen a0) by (destruct Fr as (L & _); unfold zlen; rewrite L; reflexivity).
  cbn [NpSort.part_loop].
  destruct (scan_up_spec a vp (List.length a) pi) as (U1 & U2 & U3).
  { exists pj. split; [lia|]. split; [unfold zlen in La, Hr; lia|]. apply Hi; lia. }
  destruct (scan_down_spec a vp (List.length a) pj) as (D1 & D2 & D3).
  { exists pi. split; [lia|]. split; [unfold zlen in La, Hr; lia|]. apply Lo; lia. }
  set (pi' := NpSort.scan_up lessk (List.length a) a vp pi) in *.
  set (pj' := NpSort.scan_down lessk (List.length a) a vp pj) in *.
  assert (Pi : (pi' <= pj)%Z).
  { destruct (Z_le_gt_dec pi' pj) as [|G]; [assumption|].
    specialize (U3 pj ltac:(lia)). specialize (Hi pj ltac:(lia)). lra. }
  assert (Pj : (pi <= pj')%Z).
  { destruct (Z_le_gt_dec pi pj') as [|G]; [assumption|].
    specialize (D3 pi ltac:(lia)). specialize (Lo pi ltac:(lia)). lra. }
  destruct (Z.leb_spec pj' pi') as [Hle|Hgt].
  - split; [exact Fr|]. split; [lia|]. split.
    + intros t Ht. destruct (Z_le_gt_dec t pi); [apply Lo; lia|].
      apply Rlt_le, U3; lia.
    + intros t Ht. destruct (Z.eq_dec t pi') as [->|]; [exact U2|].
      destruct (Z_le_gt_dec pj t); [apply Hi; lia|]. apply Rlt_le, D3; lia.
  - apply IH; try lia.
    + eapply frame_trans; [exact Fr|]. apply frame_swap; lia.
    + intros t Ht. rewrite kv_swap by lia.
      destruct (Z.eq_dec t pi'); [exact D2|]. destruct (Z.eq_dec t pj'); [lia|].
      destruct (Z_le_gt_dec t pi); [apply Lo; lia|]. apply Rlt_le, U3; lia.
    + intros t Ht. rewrite kv_swap by lia.
      destruct (Z.eq_dec t pi'); [lia|]. destruct (Z.eq_dec t pj'); [exact U2|].
      destruct (Z_le_gt_dec pj t); [apply Hi; lia|]. apply Rlt_le, D3; lia.
Qed.

Lemma cs_spec a p q l r : (0 <= l)%Z -> (r < zlen a)%Z -> (l <= p <= r)%Z -> (l <= q <= r)%Z ->
  p <> q ->
  let a' := cs a p q in
  frame a a' l r /\ kv a' q <= kv a' p /\
  ((kv a' p = kv a p /\ kv a' q = kv a q) \/ (kv a' p = kv a q /\ kv a' q = kv a p)) /\
  (forall t, (0 <= t)%Z -> t <> p -> t <> q -> NpSort.get a' t = NpSort.get a t).
Proof.
  intros Hl Hr Hp Hq Hpq. unfold SortInv.cs. case_eq (lessk (NpSort.get a p) (NpSort.get a q));
    intros E; unfold SortInv.lessk in E.
  - apply Rltb_true in E. split; [apply frame_swap; lia|].
    rewrite !kv_swap by lia.
    destruct (Z.eq_dec p p) as [_|]; [|lia]. destruct (Z.eq_dec q p); [lia|].
    destruct (Z.eq_dec q q) as [_|]; [|lia].
    split; [unfold SortInv.kv; lra|]. split; [right; split; reflexivity|].
    intros t Ht H1 H2. rewrite get_swap by lia.
    destruct (Z.eq_dec t p); [lia|]. destruct (Z.eq_dec t q); [lia|reflexivity].
  - apply Rltb_false in E. split; [apply frame_refl|].
    split; [exact E|]. split; [left; split; reflexivity|]. intros; reflexivity.
Qed.

Lemma frame_zlen a b l r : frame a b l r -> zlen b = zlen a.
Proof. intros (L & _). unfold zlen. rewrite L. reflexivity. Qed.

Lemma frame_out a b l r t : frame a b l r -> (0 <= t)%Z -> (t < l \/ r < t)%Z ->
  NpSort.get b t = NpSort.get a t.
Proof. intros (_ & O & _) H1 H2. apply O; assumption. Qed.

Lemma partition_spec a pl pr : (0 <= pl)%Z -> (pr < zlen a)%Z -> (16 < pr - pl)%Z ->
  let '(a', k) := NpSort.partition lessk a pl pr in
  frame a a' pl pr /\ (pl < k < pr)%Z /\
  (forall t, (pl <= t < k)%Z -> kv a' t <= kv a' k) /\
  (forall t, (k < t <= pr)%Z -> kv a' k <= kv a' t).
Proof.
  intros Hl Hr Hd. unfold NpSort.partition.
  set (pm := (pl + Z.shiftr (pr - pl) 1)%Z).
  assert (Hm : (pl + 8 <= pm <= pr - 8)%Z).
  { unfold pm. rewrite Z.shiftr_div_pow2 by lia. change (2 ^ 1)%Z with 2%Z.
    split; [|assert (2 * ((pr - pl) / 2) <= pr - pl)%Z by (apply Z.mul_div_le; lia)];
      [assert (8 <= (pr - pl) / 2)%Z by (apply Z.div_le_lower_bound; lia)|]; lia. }
  cbv zeta. fold (cs a pm pl).
  destruct (cs_spec a pm pl pl pr) as (F1 & C1 & P1 & U1); try lia.
  set (a1 := cs a pm pl) in *. fold (cs a1 pr pm).
  destruct (cs_spec a1 pr pm pl pr) as (F2 & C2 & P2 & U2); try lia.
  { rewrite (frame_zlen _ _ _ _ F1). lia. }
  set (a2 := cs a1 pr pm) in *. fold (cs a2 pm pl).
  destruct (cs_spec a2 pm pl pl pr) as (F3 & C3 & P3 & U3); try lia.
  { rewrite (frame_zlen _ _ _ _ F2), (frame_zlen _ _ _ _ F1). lia. }
  set (a3 := cs a2 pm pl) in *.
  assert (Z3 : zlen a3 = zlen a)
    by (rewrite (frame_zlen _ _ _ _ F3), (frame_zlen _ _ _ _ F2), (frame_zlen _ _ _ _ F1); reflexivity).
  assert (M1 : kv a3 pl <= kv a3 pm) by exact C3.
  assert (M2 : kv a3 pm <= kv a3 pr).
  { assert (E2l : kv a2 pl = kv a1 pl) by (unfold SortInv.kv; rewrite U2; [reflexivity|lia..]).
    assert (E3r : kv a3 pr = kv a2 pr) by (unfold SortInv.kv; rewrite U3; [reflexivity|lia..]).
    destruct P2 as [[X1 X2]|[X1 X2]]; destruct P3 as [[Y1 Y2]|[Y1 Y2]]; lra. }
  set (vp := NpSort.get a3 pm).
  set (a4 := NpSort.swap a3 pm (pr - 1)).
  assert (Z4 : zlen a4 = zlen a) by (unfold a4; rewrite zlen_swap; exact Z3).
  assert (G4 : NpSort.get a4 (pr - 1) = vp)
    by (unfold a4, vp; rewrite get_swap by lia; destruct (Z.eq_dec (pr - 1) pm); [lia|];
        destruct (Z.eq_dec (pr - 1) (pr - 1)); [reflexivity|lia]).
  assert (K4l : kv a4 pl = kv a3 pl)
    by (unfold a4; rewrite kv_swap by lia; destruct (Z.eq_dec pl pm); [lia|];
        destruct (Z.eq_dec pl (pr - 1)); [lia|reflexivity]).
  assert (K4r : kv a4 pr = kv a3 pr)
    by (unfold a4; rewrite kv_swap by lia; destruct (Z.eq_dec pr pm); [lia|];
        destruct (Z.eq_dec pr (pr - 1)); [lia|reflexivity]).
  pose proof (part_loop_spec a4 vp pl pr (List.length a4) a4 pl (pr - 1)) as PL.
  destruct (NpSort.part_loop lessk (List.length a4) a4 vp pl (pr - 1)) as [a5 k].
  destruct PL as (F5 & Hk & Lo & Hi); try lia.
  { apply frame_refl. }
  { intros t Ht. replace t with pl by lia. rewrite K4l. exact M1. }
  { intros t Ht. replace t with (pr - 1)%Z by lia. unfold SortInv.kv. rewrite G4. apply Rle_refl. }
  { unfold zlen in Z4, Hr. lia. }
  assert (Z5 : zlen a5 = zlen a) by (rewrite (frame_zlen _ _ _ _ F5); exact Z4).
  assert (G5 : NpSort.get a5 (pr - 1) = vp) by (rewrite (frame_out _ _ _ _ _ F5) by lia; exact G4).
  assert (K5r : kv a5 pr = kv a3 pr) by (unfold SortInv.kv; rewrite (frame_out _ _ _ _ _ F5) by lia;
                                         exact K4r).
  split.
  - eapply frame_trans; [exact F1|]. eapply frame_trans; [exact F2|].
    eapply frame_trans; [exact F3|]. apply (frame_trans a3 a4); [apply frame_swap; lia|].
    apply (frame_trans a4 a5); [eapply frame_widen; [| | |exact F5]; lia|].
    apply frame_swap; unfold zlen in *; lia.
  - split; [lia|].
    assert (Kk : kv (NpSort.swap a5 k (pr - 1)) k = key vp)
      by (rewrite kv_swap by lia; destruct (Z.eq_dec k k); [|lia]; unfold SortInv.kv; rewrite G5; reflexivity).
    rewrite Kk. split.
    + intros t Ht. rewrite kv_swap by lia.
      destruct (Z.eq_dec t k); [lia|]. destruct (Z.eq_dec t (pr - 1)); [lia|]. apply Lo; lia.
    + intros t Ht. rewrite kv_swap by lia.
      destruct (Z.eq_dec t k); [lia|]. destruct (Z.eq_dec t (pr - 1)); [apply Hi; lia|].
      destruct (Z.eq_dec t pr) as [->|]; [rewrite K5r; exact M2|]. apply Hi; lia.
Qed.

Lemma upd_nth_same l i : NpSort.upd l i (nth i l O) = l.
Proof. revert i; induction l as [|y t IH]; intros [|i]; simpl; auto. f_equal. apply IH. Qed.

Lemma upd_upd_same l i x y : NpSort.upd (NpSort.upd l i x) i y = NpSort.upd l i y.
Proof. revert i; induction l as [|z t IH]; intros [|i]; simpl; auto. f_equal. apply IH. Qed.

Lemma set_get_same a p : NpSort.set a p (NpSort.get a p) = a.
Proof. apply upd_nth_same. Qed.

Lemma set_set_same a p x y : NpSort.set (NpSort.set a p x) p y = NpSort.set a p y.
Proof. apply upd_upd_same. Qed.

Lemma ins_shift_spec vi pl pi fuel a pj :
  (0 <= pl <= pj)%Z -> (pj <= pi)%Z -> (pi < zlen a)%Z ->
  (forall p q, (pl <= p <= q)%Z -> (q <= pi)%Z -> q <> pj ->
     kv (NpSort.set a pj vi) p <= kv (NpSort.set a pj vi) q) ->
  (pj - pl <= Z.of_nat fuel)%Z ->
  let out := NpSort.ins_shift lessk fuel a vi pl pj in
  frame (NpSort.set a pj vi) out pl pi /\ sorted_rng out pl pi.
Proof.
  revert a pj; induction fuel as [|f IH]; intros a pj Hl Hj Ha Inv Hf; cbn [NpSort.ins_shift].
  - assert (pj = pl) by lia. subst pj. split; [apply frame_refl|].
    intros p q Hp Hq. destruct (Z.eq_dec q pl) as [->|]; [replace p with pl by lia; lra|].
    apply Inv; lia.
  - set (b := NpSort.set a pj vi) in *.
    assert (Zb : zlen b = zlen a) by apply zlen_set.
    assert (Gb : NpSort.get b pj = vi) by (apply get_set_eq; lia).
    case_eq ((pl <? pj)%Z && lessk vi (NpSort.get a (pj - 1))); intros E.
    + apply andb_true_iff in E. destruct E as [E1 E2]. apply Z.ltb_lt in E1.
      unfold SortInv.lessk in E2. apply Rltb_true in E2.
      assert (Gb' : NpSort.get b (pj - 1) = NpSort.get a (pj - 1)) by (apply get_set_neq; lia).
      assert (Eq : NpSort.set (NpSort.set a pj (NpSort.get a (pj - 1))) (pj - 1) vi =
                   NpSort.swap b (pj - 1) pj).
      { unfold NpSort.swap. rewrite Gb, Gb'. unfold b. rewrite set_set_same. reflexivity. }
      destruct (IH (NpSort.set a pj (NpSort.get a (pj - 1))) (pj - 1)%Z) as [F S];
        try rewrite Eq; try rewrite zlen_set; try lia.
      * intros p q Hp Hq Hn. rewrite !kv_swap by lia.
        destruct (Z.eq_dec p (pj - 1)); destruct (Z.eq_dec q (pj - 1)); try lia;
        destruct (Z.eq_dec p pj); destruct (Z.eq_dec q pj); try lia;
        first [ apply Inv; lia | apply Rle_refl | unfold SortInv.kv; rewrite Gb, Gb'; lra ].
      * rewrite Eq in F. split; [|exact S].
        apply (frame_trans _ (NpSort.swap b (pj - 1) pj)); [apply frame_swap; lia|exact F].
    + split; [apply frame_refl|]. fold b.
      assert (Stop : pj = pl \/ kv b (pj - 1) <= key vi).
      { apply andb_false_iff in E. destruct E as [E|E]; [apply Z.ltb_ge in E; left; lia|].
        destruct (Z.eq_dec pj pl); [left; assumption|right].
        unfold SortInv.lessk in E. apply Rltb_false in E. unfold SortInv.kv, b. rewrite get_set_neq by lia. exact E. }
      intros p q Hp Hq. destruct (Z.eq_dec q pj) as [->|]; [|apply Inv; lia].
      destruct (Z.eq_dec p pj) as [->|]; [lra|].
      destruct Stop as [|Stop]; [lia|].
      unfold SortInv.kv at 2. rewrite Gb. eapply Rle_trans; [|exact Stop]. apply Inv; lia.
Qed.

Lemma ins_loop_spec pl pr fuel a pi :
  (0 <= pl)%Z -> (pl < pi)%Z -> (pr < zlen a)%Z ->
  sorted_rng a pl (pi - 1) -> (pr - pi + 1 <= Z.of_nat fuel)%Z ->
  let out := NpSort.ins_loop lessk fuel a pl pi pr in
  frame a out pl pr /\ sorted_rng out pl pr.
Proof.
  revert a pi; induction fuel as [|f IH]; intros a pi Hl Hp Hr S Hf; cbn [NpSort.ins_loop].
  - split; [apply frame_refl|]. intros p q Hpq Hq. apply S; lia.
  - destruct (Z.leb_spec pi pr) as [Hle|Hgt].
    + destruct (ins_shift_spec (NpSort.get a pi) pl pi (List.length a) a pi) as [F1 S1];
        rewrite ?set_get_same; try lia.
      { intros p q Hpq Hq Hn. apply S; lia. }
      { unfold zlen in Hr. lia. }
      rewrite set_get_same in F1.
      set (a1 := NpSort.ins_shift lessk (List.length a) a (NpSort.get a pi) pl pi) in *.
      destruct (IH a1 (pi + 1)%Z) as [F2 S2]; try lia.
      { rewrite (frame_zlen _ _ _ _ F1). exact Hr. }
      { intros p q Hpq Hq. apply S1; lia. }
      split; [|exact S2]. eapply frame_trans; [|exact F2].
      eapply frame_widen; [| | |exact F1]; lia.
    + split; [apply frame_refl|]. intros p q Hpq Hq. apply S; lia.
Qed.

Lemma insertion_sort_spec a pl pr : (0 <= pl)%Z -> (pr < zlen a)%Z ->
  let out := NpSort.insertion_sort lessk a pl pr in
  frame a out pl pr /\ sorted_rng out pl pr.
Proof.
  intros Hl Hr. apply ins_loop_spec; try lia.
  - intros p q Hpq Hq. assert (p = q) by lia. subst. apply Rle_refl.
  - unfold zlen in Hr. lia.
Qed.

Lemma sorted_mod_step a a' l r news rest :
  (0 <= l)%Z -> (r < zlen a)%Z ->
  sorted_mod a ((l, r) :: rest) -> frame a a' l r ->
  Forall (disj (l, r)) rest ->
  (forall p q, (l <= p < q)%Z -> (q <= r)%Z ->
     (forall s, In s news -> ~ (in_seg s p /\ in_seg s q)) -> kv a' p <= kv a' q) ->
  sorted_mod a' (news ++ rest).
Proof.
  intros Hl Hr S F D Hin p q Hpq Hq Hs.
  assert (Za : zlen a' = zlen a) by exact (frame_zlen _ _ _ _ F).
  destruct F as (_ & O & I & _).
  assert (Rest : forall s, In s rest -> ~ (in_seg s p /\ in_seg s q))
    by (intros s Hs'; apply Hs; apply in_or_app; right; exact Hs').
  assert (NoRest : forall x, (l <= x <= r)%Z -> forall s, In s rest -> ~ in_seg s x).
  { intros x Hx s Hs' Hx'. rewrite Forall_forall in D. apply (D s Hs' x); [exact Hx|exact Hx']. }
  destruct (Z_le_gt_dec l p) as [Hlp|Hlp]; destruct (Z_le_gt_dec q r) as [Hqr|Hqr].
  - apply Hin; try lia. intros s Hs'. apply Hs. apply in_or_app. left. exact Hs'.
  - destruct (Z_le_gt_dec p r) as [Hpr|Hpr].
    + destruct (I p ltac:(lia)) as (p' & Hp' & E). unfold SortInv.kv. rewrite E, (O q) by lia.
      apply S; [lia|lia|]. intros s [<-|Hs'] [H1 H2].
      * unfold in_seg in H2. simpl in H2. lia.
      * apply (NoRest p' Hp' s Hs' H1).
    + unfold SortInv.kv. rewrite (O p), (O q) by lia. apply S; [lia|lia|].
      intros s [<-|Hs'] [H1 H2]; [unfold in_seg in H1; simpl in H1; lia|].
      apply (Rest s Hs'). split; assumption.
  - destruct (Z_le_gt_dec l q) as [Hlq|Hlq].
    + destruct (I q ltac:(lia)) as (q' & Hq' & E). unfold SortInv.kv. rewrite E, (O p) by lia.
      apply S; [lia|lia|]. intros s [<-|Hs'] [H1 H2].
      * unfold in_seg in H1. simpl in H1. lia.
      * apply (NoRest q' Hq' s Hs' H2).
    + unfold SortInv.kv. rewrite (O p), (O q) by lia. apply S; [lia|lia|].
      intros s [<-|Hs'] [H1 H2]; [unfold in_seg in H1; simpl in H1; lia|].
      apply (Rest s Hs'). split; assumption.
  - unfold SortInv.kv. rewrite (O p), (O q) by lia. apply S; [lia|lia|].
    intros s [<-|Hs'] [H1 H2]; [unfold in_seg in H1; simpl in H1; lia|].
    apply (Rest s Hs'). split; assumption.
Qed.

Lemma disj_sub s s1 s2 : disj s s2 -> (fst s <= fst s1)%Z -> (snd s1 <= snd s)%Z -> disj s1 s2.
Proof. intros D H1 H2 p [A B] C. apply (D p); [split; lia|exact C]. Qed.

Lemma frame_counts a b l r : frame a b l r -> same_counts b a.
Proof. intros (_ & _ & _ & C). exact C. Qed.

Lemma split_inv n a0 a a' pl pr k rest s1 s2 :
  qs_inv n a0 a ((pl, pr) :: rest) -> frame a a' pl pr -> (pl < k < pr)%Z ->
  (forall t, (pl <= t < k)%Z -> kv a' t <= kv a' k) ->
  (forall t, (k < t <= pr)%Z -> kv a' k <= kv a' t) ->
  (s1 = (pl, k - 1)%Z /\ s2 = (k + 1, pr)%Z) \/ (s1 = (k + 1, pr)%Z /\ s2 = (pl, k - 1)%Z) ->
  qs_inv n a0 a' (s1 :: s2 :: rest).
Proof.
  intros (Zl & C & S & D & B) F Hk Lo Hi Hs.
  inversion D as [|x y Dh Dt].
  inversion B as [|x2 y2 Bh Bt]. destruct Bh as (B1 & B2 & B3). simpl in B1, B2, B3.
  assert (Dsub : forall s, (pl <= fst s)%Z -> (snd s <= pr)%Z -> Forall (disj s) rest).
  { intros s G1 G2. rewrite Forall_forall in *. intros z Hx.
    apply (disj_sub (pl, pr)); [apply Dh; exact Hx|exact G1|exact G2]. }
  assert (Dlr : disj (pl, k - 1)%Z (k + 1, pr)%Z)
    by (intros p [A A'] [E E']; simpl in *; lia).
  split; [rewrite (frame_zlen _ _ _ _ F); exact Zl|].
  split; [intros w; rewrite (frame_counts _ _ _ _ F); apply C|].
  split; [|split].
  - change (s1 :: s2 :: rest) with ([s1; s2] ++ rest).
    apply (sorted_mod_step a a' pl pr); try assumption; try lia.
    intros p q Hpq Hq Hn.
    assert (NL : ~ (in_seg (pl, k - 1)%Z p /\ in_seg (pl, k - 1)%Z q))
      by (apply Hn; destruct Hs as [[-> ->]|[-> ->]]; simpl; auto).
    assert (NR : ~ (in_seg (k + 1, pr)%Z p /\ in_seg (k + 1, pr)%Z q))
      by (apply Hn; destruct Hs as [[-> ->]|[-> ->]]; simpl; auto).
    unfold in_seg in NL, NR; simpl in NL, NR.
    destruct (Z.eq_dec p k) as [->|]; [apply Hi; lia|].
    destruct (Z.eq_dec q k) as [->|]; [apply Lo; lia|].
    assert (p < k < q)%Z by lia.
    eapply Rle_trans; [apply Lo; lia|apply Hi; lia].
  - assert (D12 : disj s1 s2)
      by (destruct Hs as [[-> ->]|[-> ->]]; [exact Dlr|intros p X Y; exact (Dlr p Y X)]).
    constructor; [constructor; [exact D12|]|constructor; [|exact Dt]];
      destruct Hs as [[-> ->]|[-> ->]]; apply Dsub; simpl; lia.
  - destruct Hs as [[-> ->]|[-> ->]];
      (constructor; [|constructor; [|exact Bt]]); unfold seg_ok; simpl; lia.
Qed.

Lemma part_while_spec n a0 fuel a pl pr cd st :
  qs_inv n a0 a ((pl, pr) :: segs_of st) -> stack_ok st -> (pr - pl + 1 <= 17 + cd)%Z ->
  let '(a', pl', pr', st') := NpSort.part_while lessk fuel a pl pr cd st in
  qs_inv n a0 a' ((pl', pr') :: segs_of st') /\ stack_ok st' /\
  (wsum ((pl', pr') :: segs_of st') <= wsum ((pl, pr) :: segs_of st))%Z.
Proof.
  revert a pl pr cd st; induction fuel as [|f IH]; intros a pl pr cd st I Sk Hd;
    cbn [NpSort.part_while].
  - split; [exact I|]. split; [exact Sk|lia].
  - destruct (Z.ltb_spec 16 (pr - pl)) as [Hbig|Hsmall];
      [|split; [exact I|]; split; [exact Sk|lia]].
    assert (B : (0 <= pl)%Z /\ (pr < zlen a)%Z).
    { destruct I as (Zl & _ & _ & _ & B). inversion B as [|x y Bh Bt].
      destruct Bh as (B1 & B2 & _). simpl in *. lia. }
    pose proof (partition_spec a pl pr (proj1 B) (proj2 B) Hbig) as P.
    destruct (NpSort.partition lessk a pl pr) as [a1 k].
    destruct P as (F & Hk & Lo & Hi).
    destruct (Z.ltb_spec (k - pl) (pr - k)).
    + specialize (IH a1 pl (k - 1)%Z (cd - 1)%Z ((k + 1, pr, cd - 1)%Z :: st)).
      destruct (NpSort.part_while lessk f a1 pl (k - 1) (cd - 1)
                  ((k + 1, pr, cd - 1)%Z :: st)) as [[[a2 pl2] pr2] st2].
      destruct IH as (I2 & S2 & W2).
      * eapply split_inv; [exact I|exact F|exact Hk|exact Lo|exact Hi|left; split; reflexivity].
      * constructor; [cbn [fst snd]; lia|exact Sk].
      * lia.
      * split; [exact I2|]. split; [exact S2|]. unfold segs_of in *; cbn [wsum fold_right fst snd map] in W2 |- *. lia.
    + specialize (IH a1 (k + 1)%Z pr (cd - 1)%Z ((pl, k - 1, cd - 1)%Z :: st)).
      destruct (NpSort.part_while lessk f a1 (k + 1) pr (cd - 1)
                  ((pl, k - 1, cd - 1)%Z :: st)) as [[[a2 pl2] pr2] st2].
      destruct IH as (I2 & S2 & W2).
      * eapply split_inv; [exact I|exact F|exact Hk|exact Lo|exact Hi|right; split; reflexivity].
      * constructor; [cbn [fst snd]; lia|exact Sk].
      * lia.
      * split; [exact I2|]. split; [exact S2|]. unfold segs_of in *; cbn [wsum fold_right fst snd map] in W2 |- *. lia.
Qed.

Lemma ins_inv n a0 a pl pr rest :
  qs_inv n a0 a ((pl, pr) :: rest) -> qs_inv n a0 (NpSort.insertion_sort lessk a pl pr) rest.
Proof.
  intros (Zl & C & S & D & B).
  inversion D as [|x y Dh Dt]. inversion B as [|x2 y2 Bh Bt].
  destruct Bh as (B1 & B2 & B3). simpl in B1, B2, B3.
  destruct (insertion_sort_spec a pl pr) as [F So]; try lia.
  split; [rewrite (frame_zlen _ _ _ _ F); exact Zl|].
  split; [intros w; rewrite (frame_counts _ _ _ _ F); apply C|].
  split; [|split; [exact Dt|exact Bt]].
  change rest with ([] ++ rest). apply (sorted_mod_step a _ pl pr); try assumption; try lia.
  intros p q Hpq Hq _. apply So; lia.
Qed.

Lemma wsum_nonneg n segs : Forall (seg_ok n) segs -> (0 <= wsum segs)%Z.
Proof.
  induction 1 as [|s l Hs _ IH]; cbn [wsum fold_right]; [lia|].
  unfold wsum in IH. destruct Hs as (_ & _ & H). lia.
Qed.

Lemma qs_outer_spec n a0 fuel a pl pr cd st :
  qs_inv n a0 a ((pl, pr) :: segs_of st) -> stack_ok st -> (0 <= cd)%Z ->
  (pr - pl + 1 <= 17 + cd)%Z -> (wsum ((pl, pr) :: segs_of st) <= Z.of_nat fuel)%Z ->
  qs_inv n a0 (NpSort.qs_outer lessk fuel a pl pr cd st) [].
Proof.
  revert a pl pr cd st; induction fuel as [|f IH]; intros a pl pr cd st I Sk Hc Hd Hw.
  - exfalso. destruct I as (_ & _ & _ & _ & B). pose proof (wsum_nonneg _ _ B) as W.
    inversion B as [|x y Bh Bt]. destruct Bh as (_ & _ & Hb). pose proof (wsum_nonneg _ _ Bt).
    unfold wsum in *. cbn [fold_right fst snd] in *. lia.
  - cbn [NpSort.qs_outer].
    destruct (Z.ltb_spec cd 0) as [|_]; [lia|].
    pose proof (part_while_spec n a0 (List.length a) a pl pr cd st I Sk Hd) as P.
    destruct (NpSort.part_while lessk (List.length a) a pl pr cd st) as [[[a1 pl1] pr1] st1].
    destruct P as (I1 & S1 & W1).
    pose proof (ins_inv _ _ _ _ _ _ I1) as I2.
    destruct st1 as [|[[l r] d] st2]; [exact I2|].
    inversion S1 as [|e s He Ht]. simpl in He. destruct He as [He1 He2].
    apply IH; try assumption.
    destruct I1 as (_ & _ & _ & _ & B). inversion B as [|x y Bh Bt].
    destruct Bh as (_ & _ & Hb).
    unfold segs_of, wsum in *. cbn [fold_right fst snd map] in *. lia.
Qed.

Lemma depth_budget n : (n <= 25)%nat -> (Z.of_nat n - 1 - 0 + 1 <= 17 + NpSort.npy_get_msb n * 2)%Z.
Proof.
  intros H. unfold NpSort.npy_get_msb.
  destruct (Nat.le_gt_cases n 17).
  - pose proof (Z.log2_nonneg (Z.of_nat n)). lia.
  - assert (4 <= Z.log2 (Z.of_nat n))%Z.
    { change 4%Z with (Z.log2 16). apply Z.log2_le_mono. lia. }
    lia.
Qed.

Lemma aquicksort_spec n : (n <= 25)%nat ->
  let ix := NpSort.aquicksort lessk n in
  Permutation ix (seq 0 n) /\
  forall p q, (p < q < n)%nat -> key (nth p ix O) <= key (nth q ix O).
Proof.
  intros Hn. unfold NpSort.aquicksort.
  assert (Z0 : zlen (seq 0 n) = Z.of_nat n) by (unfold zlen; rewrite length_seq; reflexivity).
  assert (I : qs_inv (Z.of_nat n) (seq 0 n) (seq 0 n) ((0, Z.of_nat n - 1)%Z :: segs_of [])).
  { split; [exact Z0|]. split; [intros y; reflexivity|]. split; [|split].
    - intros p q Hpq Hq Hs. exfalso. apply (Hs (0, Z.of_nat n - 1)%Z); [left; reflexivity|].
      unfold in_seg; simpl. rewrite Z0 in Hq. lia.
    - constructor; constructor.
    - constructor; [|constructor]. unfold seg_ok; simpl. lia. }
  pose proof (qs_outer_spec _ _ (2 * n + 1) _ _ _ (NpSort.npy_get_msb n * 2) [] I
                (Forall_nil _)) as Q.
  destruct Q as (Zl & C & S & _ & _).
  - unfold NpSort.npy_get_msb. pose proof (Z.log2_nonneg (Z.of_nat n)). lia.
  - apply depth_budget. exact Hn.
  - unfold wsum, segs_of. cbn [fold_right fst snd map]. lia.
  - split.
    + apply (Permutation_count_occ Nat.eq_dec). exact C.
    + intros p q Hpq.
      assert (L : (Z.of_nat q < zlen (NpSort.qs_outer lessk (2 * n + 1) (seq 0 n) 0
                      (Z.of_nat n - 1) (NpSort.npy_get_msb n * 2) []))%Z) by lia.
      pose proof (S (Z.of_nat p) (Z.of_nat q) ltac:(lia) L) as Hs.
      unfold SortInv.kv, NpSort.get in Hs. rewrite !Nat2Z.id in Hs. apply Hs.
      intros s [].
Qed.
End Spec.

Lemma map_nth_seq_self {A} (l : list A) d : map (fun k => nth k l d) (seq 0 (List.length l)) = l.
Proof.
  induction l as [|x t IH]; [reflexivity|]. simpl. f_equal.
  rewrite <- seq_shift, map_map. exact IH.
Qed.

Lemma nth_map_in {A B} (f : A -> B) l i da db : (i < List.length l)%nat ->
  nth i (map f l) db = f (nth i l da).
Proof.
  intros H. rewrite (nth_indep _ db (f da)) by (rewrite length_map; exact H).
  apply map_nth.
Qed.

Lemma nth_rev_seq n k : (k < n)%nat -> nth k (rev (seq 0 n)) O = (n - 1 - k)%nat.
Proof.
  intros H. rewrite rev_nth by (rewrite length_seq; exact H).
  rewrite length_seq, seq_nth by lia. lia.
Qed.

(** numpy's generic introsort sorts up to 25 keys. *)
Lemma np_argsort_generic_sorts keys :
  (List.length keys <= 25)%nat -> argsort_sorts np_argsort_generic keys.
Proof.
  intros Hn. exact (aquicksort_spec (fun i => nth i keys 0) (List.length keys) Hn).
Qed.

Lemma nargsort_desc_with_spec argsort keys :
  argsort_sorts argsort (rev keys) ->
  let n := List.length keys in
  let out := nargsort_desc_with argsort keys in
  Permutation out (seq 0 n) /\
  forall p q, (p < q < n)%nat -> nth (nth q out O) keys 0 <= nth (nth p out O) keys 0.
Proof.
  intros [P S] n out. rewrite length_rev in P, S. fold n in P, S.
  set (ix := argsort (rev keys)) in P, S.
  assert (Lix : List.length ix = n) by (rewrite (Permutation_length P), length_seq; reflexivity).
  assert (Bix : forall j, (j < n)%nat -> (nth j ix O < n)%nat).
  { intros j Hj. assert (In (nth j ix O) (seq 0 n)) as Hin
      by (eapply Permutation_in; [exact P|apply nth_In; lia]).
    apply in_seq in Hin. lia. }
  assert (Out : forall p, (p < n)%nat -> nth p out O = (n - 1 - nth (n - 1 - p) ix O)%nat).
  { intros p Hp. unfold out, nargsort_desc_with. fold n. fold ix.
    rewrite rev_nth by (rewrite length_map; lia). rewrite length_map, Lix.
    replace (n - Datatypes.S p)%nat with (n - 1 - p)%nat by lia.
    rewrite (nth_map_in _ _ _ O) by lia. apply nth_rev_seq. apply Bix. lia. }
  split.
  - unfold out, nargsort_desc_with. fold n. fold ix.
    eapply perm_trans; [apply Permutation_sym, Permutation_rev|].
    eapply perm_trans; [apply Permutation_map; exact P|].
    assert (E : map (fun k => nth k (rev (seq 0 n)) O) (seq 0 n) = rev (seq 0 n)).
    { pose proof (map_nth_seq_self (rev (seq 0 n)) O) as M.
      rewrite length_rev, length_seq in M. exact M. }
    rewrite E. apply Permutation_sym, Permutation_rev.
  - intros p q Hpq. rewrite !Out by lia.
    assert (Kr : forall j, (j < n)%nat -> nth (n - 1 - j) keys 0 = nth j (rev keys) 0).
    { intros j Hj. rewrite rev_nth by lia. fold n. f_equal. lia. }
    rewrite !Kr by (apply Bix; lia). apply S. lia.
Qed.

Lemma sort_by_abs_desc_with_spec argsort rows :
  argsort_sorts argsort (rev (map (fun r => Rabs (snd r)) rows)) ->
  let out := sort_by_abs_desc_with argsort rows in
  Permutation out rows /\
  forall p q, (p < q < List.length rows)%nat ->
    Rabs (snd (nth q out (""%string, 0))) <= Rabs (snd (nth p out (""%string, 0))).
Proof.
  intros Ha out.
  set (keys := map (fun r => Rabs (snd r)) rows) in Ha.
  assert (Lk : List.length keys = List.length rows) by apply length_map.
  destruct (nargsort_desc_with_spec argsort keys Ha) as [P S]. rewrite Lk in P, S.
  set (ns := nargsort_desc_with argsort keys) in P, S.
  assert (Lo : List.length ns = List.length rows)
    by (rewrite (Permutation_length P), length_seq; reflexivity).
  assert (B : forall j, (j < List.length rows)%nat -> (nth j ns O < List.length rows)%nat).
  { intros j Hj. assert (In (nth j ns O) (seq 0 (List.length rows))) as Hin
      by (eapply Permutation_in; [exact P|apply nth_In; lia]).
    apply in_seq in Hin. lia. }
  assert (V : forall j, (j < List.length rows)%nat ->
            Rabs (snd (nth j out (""%string, 0))) = nth (nth j ns O) keys 0).
  { intros j Hj. unfold out, sort_by_abs_desc_with. fold keys. fold ns.
    rewrite (nth_map_in _ _ _ O) by lia. unfold keys.
    rewrite (nth_map_in _ _ _ (""%string, 0)) by (apply B; exact Hj). reflexivity. }
  split.
  - unfold out, sort_by_abs_desc_with. fold keys. fold ns.
    eapply perm_trans; [apply Permutation_map; exact P|]. rewrite map_nth_seq_self. apply Permutation_refl.
  - intros p q Hpq. rewrite !V by lia. apply S. exact Hpq.
Qed.

Lemma sort_by_abs_desc_spec rows : (List.length rows <= 25)%nat ->
  let out := sort_by_abs_desc rows in
  Permutation out rows /\
  forall p q, (p < q < List.length rows)%nat ->
    Rabs (snd (nth q out (""%string, 0))) <= Rabs (snd (nth p out (""%string, 0))).
Proof.
  intros Hn. apply sort_by_abs_desc_with_spec, np_argsort_generic_sorts.
  rewrite length_rev, length_map. exact Hn.
Qed.

End SortCorrect.

(* ------------------------------------------------------------------ *)
(** ** The contribution table's order (line 324) *)

(** With all keys 0 every comparison [less] is false. *)
Lemma nargsort_desc_zeros n :
  nargsort_desc_with np_argsort_generic (repeat 0 n) =
  rev (map (fun k => nth k (rev (seq 0 n)) O) (NpSort.aquicksort (fun _ _ => false) n)).
Proof.
  cbv beta zeta delta [nargsort_desc_with np_argsort_generic].
  rewrite rev_repeat, !repeat_length.
  replace (fun i j : nat => Rltb (nth i (repeat 0 n) 0) (nth j (repeat 0 n) 0))
    with (fun _ _ : nat => false); [reflexivity|].
  apply functional_extensionality; intros i. apply functional_extensionality; intros j.
  rewrite !nth_repeat. symmetry. apply SortCorrect.Rltb_false. apply Rle_refl.
Qed.

Lemma zero_contributions_keys :
  map (fun r => Rabs (snd r)) (contributions names21 (repeat 0 21) (repeat 1 21)) = repeat 0 21.
Proof. cbn [contributions names21 repeat combine map fst snd]. rewrite !Rmult_0_l, !Rabs_R0. reflexivity. Qed.

(** C6 (counterexample): with all 21 coefficients 0 every contribution is
    0, so all rows tie; where numpy runs its generic introsort (numpy before
    1.25, or a CPU without the SIMD argsort) the sorted table does not keep
    the feature order: pandas' default quicksort puts [log_MLR], then
    [log_CRP*log_triglycerides] and [log_NLR*sex] first. *)
Lemma explain_ties_not_in_feature_order :
  let rows := contributions names21 (repeat 0 21) (repeat 1 21) in
  (forall r, In r rows -> Rabs (snd r) = 0) /\
  map fst (sort_by_abs_desc rows) <> map fst rows /\
  map fst (firstn 3 (sort_by_abs_desc rows)) =
    [readable "log_MLR"; readable "log_CRP*log_triglycerides"; readable "log_NLR*sex"]%string.
Proof.
  intros rows.
  assert (E : sort_by_abs_desc rows =
              map (fun i => nth i rows (""%string, 0))
                  [0; 11; 19; 18; 17; 16; 15; 14; 13; 12; 10; 1; 9; 8; 7; 6; 5; 4; 3; 2; 20]%nat).
  { unfold sort_by_abs_desc, sort_by_abs_desc_with, rows. rewrite zero_contributions_keys.
    rewrite nargsort_desc_zeros. reflexivity. }
  split; [|split].
  - intros r Hr. apply (in_map (fun r => Rabs (snd r))) in Hr.
    unfold rows in Hr. rewrite zero_contributions_keys in Hr.
    apply repeat_spec in Hr. exact Hr.
  - rewrite E. unfold rows. vm_compute. discriminate.
  - rewrite E. unfold rows. vm_compute. reflexivity.
Qed.

(** C6 (amended): numpy's generic introsort argsort sorts every key list of
    at most 25 entries (the app's table has 21 rows); and with any argsort
    that sorts the keys (the generic introsort, or the SIMD argsort numpy
    dispatches to on x86 CPUs with AVX-512 or AVX2), the explainer's output
    is a permutation of the contribution rows, in descending order of
    [abs(contribution)]. Neither argsort is stable: the order among equal
    values is the one the sort gives. *)
Theorem explain_sorted_by_abs :
  (forall keys, (List.length keys <= 25)%nat -> argsort_sorts np_argsort_generic keys) /\
  (forall (argsort : argsort_fn) names coeffs xs,
     let rows := contributions names coeffs xs in
     (forall keys, List.length keys = List.length rows -> argsort_sorts argsort keys) ->
     Permutation (sort_by_abs_desc_with argsort rows) rows /\
     (forall p q, (p < q < List.length rows)%nat ->
        Rabs (snd (nth q (sort_by_abs_desc_with argsort rows) (""%string, 0)))
        <= Rabs (snd (nth p (sort_by_abs_desc_with argsort rows) (""%string, 0))))).
Proof.
  split.
  - exact SortCorrect.np_argsort_generic_sorts.
  - intros argsort names coeffs xs rows Ha.
    apply SortCorrect.sort_by_abs_desc_with_spec. apply Ha.
    rewrite length_rev, length_map. reflexivity.
Qed.

Lemma explain_sorted_by_abs_witness :
  let rows := contributions ["a"; "b"; "c"]%string [2; 1; -1] [1; -3; 2] in
  (forall keys, List.length keys = List.length rows -> argsort_sorts np_argsort_generic keys) /\
  Permutation (sort_by_abs_desc_with np_argsort_generic rows) rows /\
  (forall p q, (p < q < List.length rows)%nat ->
     Rabs (snd (nth q (sort_by_abs_desc_with np_argsort_generic rows) (""%string, 0)))
     <= Rabs (snd (nth p (sort_by_abs_desc_with np_argsort_generic rows) (""%string, 0)))).
Proof.
  intros rows.
  assert (Ha : forall keys, List.length keys = List.length rows ->
                 argsort_sorts np_argsort_generic keys).
  { intros keys Hk. apply (proj1 explain_sorted_by_abs). rewrite Hk. simpl. lia. }
  split; [exact Ha|].
  exact (proj2 explain_sorted_by_abs np_argsort_generic ["a"; "b"; "c"]%string
           [2; 1; -1] [1; -3; 2] Ha).
Defined.

(* ------------------------------------------------------------------ *)
(** ** Further properties: result display, preprocessing edges, failures *)

Lemma np_log1p_fin x : -1 < x -> np_log1p x = Fin (ln (1 + x)).
Proof. intros H. unfold np_log1p. destruct (Rlt_dec (-1) x); [reflexivity|lra]. Qed.

Lemma demo_request : exists p df, request [] demo_scaler demo_model demo_input = Shown p df.
Proof.
  unfold request.
  cbn -[np_log1p pf_mul pf_div sort_by_abs_desc contributions expit decision_function].
  rewrite np_log1p_fin by lra.
  cbn -[pf_div sort_by_abs_desc contributions expit decision_function].
  rewrite !pf_div_fin by lra.
  cbn -[sort_by_abs_desc expit decision_function].
  eauto.
Qed.

Lemma request_shown_inv wl sc m r p df :
  request wl sc m r = Shown p df ->
  exists logs X ys xs,
    preprocess wl (input_data r) numeric_cols = Ok logs /\
    expand (df_input (input_data r) logs) = Ok X /\
    scaler_transform sc X = Ok ys /\
    lr_check_array ys = Ok xs /\
    List.length xs = List.length (coef_ m) /\
    p = expit (decision_function m xs) /\
    contributions (match feature_names_in_ m with
                   | Some fs => fs | None => map fst X end) (coef_ m) xs <> [] /\
    df = sort_by_abs_desc
           (contributions (match feature_names_in_ m with
                           | Some fs => fs | None => map fst X end) (coef_ m) xs).
Proof.
  unfold request.
  destruct (preprocess _ _ _) as [logs|e] eqn:Hp; [|discriminate].
  destruct (expand _) as [X|e] eqn:He; [|discriminate].
  destruct (scaler_transform sc X) as [ys|e] eqn:Hs; [|discriminate].
  destruct (lr_check_array ys) as [xs|e] eqn:Hl; [|discriminate].
  unfold predict_proba. destruct (Nat.eqb_spec (List.length xs) (List.length (coef_ m))) as [L|L];
    [|discriminate].
  destruct (contributions _ (coef_ m) xs) as [|row rows] eqn:Ec; [discriminate|].
  intros [= <- <-]. exists logs, X, ys, xs. rewrite Ec. repeat split; auto; discriminate.
Qed.

Lemma expit_bounds z : 0 < expit z < 1.
Proof.
  unfold expit. pose proof (exp_pos (- z)) as E.
  split.
  - apply Rdiv_lt_0_compat; lra.
  - apply (Rmult_lt_reg_r (1 + exp (- z))); [lra|].
    unfold Rdiv. rewrite Rmult_assoc, Rinv_l by lra. lra.
Qed.

(** A shown risk probability lies between 0 and 1. *)
Theorem request_prob_bounds wl sc m r p df :
  request wl sc m r = Shown p df -> 0 <= p <= 1.
Proof.
  intros H.
  destruct (request_shown_inv _ _ _ _ _ _ H) as (logs & X & ys & xs & _ & _ & _ & _ & _ & -> & _).
  pose proof (expit_bounds (decision_function m xs)). lra.
Qed.

Lemma request_prob_bounds_witness :
  exists p df, request [] demo_scaler demo_model demo_input = Shown p df /\ 0 <= p <= 1.
Proof.
  destruct demo_request as (p & df & H). exists p, df. split; [exact H|].
  exact (request_prob_bounds [] demo_scaler demo_model demo_input p df H).
Defined.

(** The risk badge ([prob < 0.2], [prob < 0.5]) and the recommendation box
    ([prob > 0.5], [prob > 0.2]) name the same level except at exactly 0.2
    (MODERATE badge, Low box) and 0.5 (HIGH badge, Moderate box). *)
Theorem badge_vs_recommendation p :
  (risk_badge p = recommendation p <-> p <> 2/10 /\ p <> 1/2) /\
  (risk_badge (2/10) = ModerateRisk /\ recommendation (2/10) = LowRisk) /\
  (risk_badge (1/2) = HighRisk /\ recommendation (1/2) = ModerateRisk).
Proof.
  unfold risk_badge, recommendation.
  split; [|split; split].
  - destruct (Rlt_dec p (2/10)), (Rlt_dec p (1/2)), (Rlt_dec (1/2) p), (Rlt_dec (2/10) p);
      split; intros H; try discriminate; try lra; try (split; lra);
      try reflexivity; exfalso; destruct H as [H1 H2]; lra.
  - destruct (Rlt_dec (2/10) (2/10)); [lra|]. destruct (Rlt_dec (2/10) (1/2)); [reflexivity|lra].
  - destruct (Rlt_dec (1/2) (2/10)); [lra|]. destruct (Rlt_dec (2/10) (2/10)); [lra|].
    destruct (Rlt_dec (2/10) (2/10)); [lra|reflexivity].
  - destruct (Rlt_dec (1/2) (2/10)); [lra|]. destruct (Rlt_dec (1/2) (1/2)); [lra|reflexivity].
  - destruct (Rlt_dec (1/2) (1/2)); [lra|]. destruct (Rlt_dec (2/10) (1/2)); [reflexivity|lra].
Qed.

(** A higher probability never gets a lower badge or a lower recommendation. *)
Theorem risk_levels_monotone p q : p <= q ->
  (risk_rank (risk_badge p) <= risk_rank (risk_badge q))%nat /\
  (risk_rank (recommendation p) <= risk_rank (recommendation q))%nat.
Proof.
  intros H. unfold risk_badge, recommendation.
  split;
  repeat match goal with |- context [Rlt_dec ?a ?b] => destruct (Rlt_dec a b) end;
  simpl; lia || lra.
Qed.

Lemma risk_levels_monotone_witness :
  1/10 <= 3/10 /\
  (risk_rank (risk_badge (1/10)) <= risk_rank (risk_badge (3/10)))%nat /\
  (risk_rank (recommendation (1/10)) <= risk_rank (recommendation (3/10)))%nat.
Proof. split; [lra|]. apply (risk_levels_monotone (1/10) (3/10)). lra. Defined.

Lemma request_shown_X wl sc m r p df :
  request wl sc m r = Shown p df ->
  exists (X : dict pyfloat) (xs : list R),
    map fst X = names21 /\ List.length xs = 21%nat /\ List.length (coef_ m) = 21%nat /\
    p = expit (decision_function m xs) /\
    df = sort_by_abs_desc
           (contributions (match feature_names_in_ m with
                           | Some fs => fs | None => map fst X end) (coef_ m) xs).
Proof.
  intros H.
  destruct (request_shown_inv _ _ _ _ _ _ H)
    as (logs & X & ys & xs & Hp & He & Hs & Hl & L & Hpr & _ & Hdf).
  destruct (preprocess_shape _ _ _ Hp) as (a & b & c & d & ->).
  pose proof (expand_names _ _ He (df_input_has_core r a b c d)) as N.
  destruct (scaler_transform_ok _ _ _ Hs) as [Ly _].
  assert (Lx : List.length xs = List.length ys)
    by (rewrite <- (lr_check_array_ok _ _ Hl), length_map; reflexivity).
  assert (LX : List.length X = 21%nat) by (rewrite <- (length_map fst X), N; reflexivity).
  exists X, xs. repeat split; auto; lia.
Qed.

Lemma sum_perm (l l' : list R) : Permutation l l' -> fold_right Rplus 0 l = fold_right Rplus 0 l'.
Proof. induction 1; simpl; lra. Qed.

Lemma contributions_length names cs xs :
  List.length (contributions names cs xs) =
  Nat.min (List.length names) (Nat.min (List.length cs) (List.length xs)).
Proof. unfold contributions. rewrite length_map, !length_combine. reflexivity. Qed.


Lemma contributions_names names cs xs :
  (List.length names <= List.length cs)%nat -> (List.length names <= List.length xs)%nat ->
  map fst (contributions names cs xs) = map readable names.
Proof.
  revert cs xs. induction names as [|n ns IH]; intros [|c cs] [|x xs]; simpl; intros; try lia; auto.
  f_equal. apply IH; lia.
Qed.

(** The shown probability is [expit] of the intercept plus the sum of the
    table's impacts, when the model's feature names (if any) match its
    coefficients in number. *)
Theorem shown_prob_from_table wl sc m r p df :
  request wl sc m r = Shown p df ->
  (forall fs, feature_names_in_ m = Some fs -> List.length fs = List.length (coef_ m)) ->
  p = expit (fold_right Rplus 0 (map snd df) + intercept_ m).
Proof.
  intros H Hf. destruct (request_shown_X _ _ _ _ _ _ H) as (X & xs & N & Lx & Lc & -> & ->).
  set (names := match feature_names_in_ m with Some fs => fs | None => map fst X end).
  assert (Ln : List.length names = 21%nat).
  { unfold names. destruct (feature_names_in_ m) as [fs|] eqn:E.
    - rewrite (Hf fs eq_refl). exact Lc.
    - rewrite N. reflexivity. }
  destruct (contributions_facts names (coef_ m) xs ltac:(lia) ltac:(lia)) as (L & _ & S).
  destruct (SortCorrect.sort_by_abs_desc_spec (contributions names (coef_ m) xs) ltac:(lia))
    as [P _].
  rewrite (sum_perm _ _ (Permutation_map snd P)), S. reflexivity.
Qed.

Lemma shown_prob_from_table_witness :
  exists p df, request [] demo_scaler demo_model demo_input = Shown p df /\
    (forall fs, feature_names_in_ demo_model = Some fs ->
       List.length fs = List.length (coef_ demo_model)) /\
    p = expit (fold_right Rplus 0 (map snd df) + intercept_ demo_model).
Proof.
  destruct demo_request as (p & df & H).
  assert (Hf : forall fs, feature_names_in_ demo_model = Some fs ->
                 List.length fs = List.length (coef_ demo_model)) by discriminate.
  exists p, df. split; [exact H|]. split; [exact Hf|].
  exact (shown_prob_from_table [] demo_scaler demo_model demo_input p df H Hf).
Defined.

Lemma names21_readable_nodup : NoDup (map readable names21).
Proof.
  cbn. repeat constructor; cbn; intuition discriminate.
Qed.

(** Without [feature_names_in_], the table has one row per column of
    [X_final] under its readable name, and no two rows share a label. *)
Theorem shown_table_labels wl sc m r p df :
  request wl sc m r = Shown p df -> feature_names_in_ m = None ->
  Permutation (map fst df) (map readable names21) /\ NoDup (map fst df).
Proof.
  intros H Hn. destruct (request_shown_X _ _ _ _ _ _ H) as (X & xs & N & Lx & Lc & _ & ->).
  rewrite Hn, N. assert (L21 : List.length names21 = 21%nat) by reflexivity.
  destruct (SortCorrect.sort_by_abs_desc_spec (contributions names21 (coef_ m) xs))
    as [P _].
  { rewrite contributions_length. lia. }
  assert (Pm := Permutation_map fst P).
  rewrite contributions_names in Pm by lia.
  split; [exact Pm|].
  apply (Permutation_NoDup (Permutation_sym Pm)), names21_readable_nodup.
Qed.

Lemma shown_table_labels_witness :
  exists p df, request [] demo_scaler demo_model demo_input = Shown p df /\
    feature_names_in_ demo_model = None /\
    Permutation (map fst df) (map readable names21) /\ NoDup (map fst df).
Proof.
  destruct demo_request as (p & df & H).
  exists p, df. split; [exact H|]. split; [reflexivity|].
  exact (shown_table_labels [] demo_scaler demo_model demo_input p df H eq_refl).
Defined.

(** The table has 21 rows, or fewer when [feature_names_in_] is shorter
    ([zip] stops at the shortest argument). *)
Theorem shown_table_length wl sc m r p df :
  request wl sc m r = Shown p df ->
  List.length df = match feature_names_in_ m with
                   | Some fs => Nat.min (List.length fs) 21 | None => 21%nat end.
Proof.
  intros H. destruct (request_shown_X _ _ _ _ _ _ H) as (X & xs & N & Lx & Lc & _ & ->).
  set (names := match feature_names_in_ m with Some fs => fs | None => map fst X end).
  assert (Lr : List.length (contributions names (coef_ m) xs) =
               Nat.min (List.length names) 21).
  { rewrite contributions_length, Lc, Lx. reflexivity. }
  destruct (SortCorrect.sort_by_abs_desc_spec (contributions names (coef_ m) xs))
    as [P _]; [lia|].
  rewrite (Permutation_length P), Lr. unfold names.
  destruct (feature_names_in_ m); [reflexivity|]. rewrite N. reflexivity.
Qed.

Lemma shown_table_length_witness :
  exists p df, request [] demo_scaler demo_model demo_input = Shown p df /\
    List.length df = 21%nat.
Proof.
  destruct demo_request as (p & df & H).
  exists p, df. split; [exact H|].
  exact (shown_table_length [] demo_scaler demo_model demo_input p df H).
Defined.

(** The bar chart shows the first six rows of the sorted table: no row left
    out has a larger [abs(Impact)] than a row shown, and a row is labelled
    'Increases Risk' exactly when its impact is positive (a zero impact is
    'Decreases Risk'). *)
Theorem chart_shows_top6 wl sc m r p df :
  request wl sc m r = Shown p df ->
  map fst (chart_rows df) = firstn 6 df /\
  (forall row, In row (chart_rows df) ->
     forall y, In y (skipn 6 df) -> Rabs (snd y) <= Rabs (snd (fst row))) /\
  (forall row, In row (chart_rows df) ->
     snd row = "Increases Risk"%string <-> 0 < snd (fst row)).
Proof.
  intros H. destruct (request_shown_X _ _ _ _ _ _ H) as (X & xs & N & Lx & Lc & _ & Hdf).
  assert (Mf : map fst (chart_rows df) = firstn 6 df).
  { unfold chart_rows, with_type. rewrite firstn_map, map_map. cbn [fst].
    induction (firstn 6 df) as [|[a b] t IHt]; simpl; [reflexivity|now rewrite IHt]. }
  split; [exact Mf|]. split.
  - set (names := match feature_names_in_ m with Some fs => fs | None => map fst X end) in Hdf.
    assert (Lr : (List.length (contributions names (coef_ m) xs) <= 25)%nat)
      by (rewrite contributions_length; lia).
    destruct (SortCorrect.sort_by_abs_desc_spec _ Lr) as [P S].
    rewrite <- Hdf in P, S. rewrite <- (Permutation_length P) in S.
    intros row Hrow y Hy.
    apply (in_map fst) in Hrow. rewrite Mf in Hrow.
    destruct (In_nth _ _ (""%string, 0) Hrow) as (i & Hi & Ei).
    destruct (In_nth _ _ (""%string, 0) Hy) as (j & Hj & Ej).
    rewrite length_firstn in Hi. rewrite length_skipn in Hj.
    rewrite nth_firstn in Ei. rewrite nth_skipn in Ej.
    destruct (Nat.ltb_spec i 6); [|lia].
    rewrite <- Ei, <- Ej. apply S. lia.
  - intros row Hrow. unfold chart_rows, with_type in Hrow. rewrite firstn_map in Hrow.
    apply in_map_iff in Hrow as (x & <- & _). cbn [fst snd]. unfold impact_type.
    destruct (Rlt_dec 0 (snd x)); split; intros; try lra; try reflexivity; discriminate.
Qed.

(** With inverted bounds ([upper < lower]) every value becomes
    [log1p(lower)]. *)
Theorem clamp_inverted_bounds wl col v lim lo up :
  find_limits col wl = Some lim ->
  dict_get lim "lower"%string = Some lo -> dict_get lim "upper"%string = Some up ->
  up < lo ->
  clamp_and_log wl col v = Ok (np_log1p lo).
Proof.
  intros Hf Hl Hu Hlt. unfold clamp_and_log, dict_getitem. rewrite Hf.
  destruct lim as [|e lim']; [discriminate|]. simpl dict_truthy. rewrite Hl, Hu. simpl.
  rewrite Rmax_py, Rmin_py. f_equal. f_equal.
  unfold Rmax, Rmin. destruct (Rle_dec v up); destruct (Rle_dec lo _); lra.
Qed.

Lemma clamp_inverted_bounds_witness :
  find_limits "CRP" [("crp", [("lower", 10); ("upper", 5)])]%string =
    Some [("lower", 10); ("upper", 5)]%string /\
  dict_get [("lower", 10); ("upper", 5)]%string "lower"%string = Some 10 /\
  dict_get [("lower", 10); ("upper", 5)]%string "upper"%string = Some 5 /\ 5 < 10 /\
  clamp_and_log [("crp", [("lower", 10); ("upper", 5)])]%string "CRP" 7 = Ok (np_log1p 10).
Proof.
  split; [reflexivity|]. split; [reflexivity|]. split; [reflexivity|]. split; [lra|].
  apply (clamp_inverted_bounds _ "CRP" 7 [("lower", 10); ("upper", 5)]%string 10 5);
    [reflexivity | reflexivity | reflexivity | lra].
Defined.

Lemma np_log1p_fin_inv x a : np_log1p x = Fin a -> -1 < x /\ a = ln (1 + x).
Proof.
  unfold np_log1p. destruct (Rlt_dec (-1) x); [intros [= <-]; auto|].
  destruct (Req_EM_T x (-1)); discriminate.
Qed.

Lemma ln_le_compat x y : 0 < x -> x <= y -> ln x <= ln y.
Proof.
  intros Hx Hxy. destruct (Req_dec x y) as [->|N]; [lra|].
  left. apply ln_increasing; lra.
Qed.

(** Clamping then [log1p] preserves the order of finite results. *)
Theorem clamp_and_log_monotone wl col v v' a b :
  v <= v' ->
  clamp_and_log wl col v = Ok (Fin a) -> clamp_and_log wl col v' = Ok (Fin b) ->
  a <= b.
Proof.
  intros Hv. unfold clamp_and_log.
  assert (M : forall x y, np_log1p x = Fin a -> np_log1p y = Fin b -> x <= y -> a <= b).
  { intros x y Hx Hy Hxy. apply np_log1p_fin_inv in Hx as [Hx ->].
    apply np_log1p_fin_inv in Hy as [Hy ->]. apply ln_le_compat; lra. }
  destruct (find_limits col wl) as [lim|].
  2: { intros [= Ha] [= Hb]. exact (M _ _ Ha Hb Hv). }
  destruct (dict_truthy lim).
  2: { intros [= Ha] [= Hb]. exact (M _ _ Ha Hb Hv). }
  unfold dict_getitem.
  destruct (dict_get lim "lower"%string) as [lo|]; [|discriminate].
  destruct (dict_get lim "upper"%string) as [up|]; [|discriminate].
  simpl. intros [= Ha] [= Hb]. apply (M _ _ Ha Hb).
  rewrite !Rmax_py, !Rmin_py. apply Rle_max_compat_l, Rle_min_compat_r, Hv.
Qed.

Lemma clamp_and_log_monotone_witness :
  1 <= 2 /\
  clamp_and_log [] "MLR" 1 = Ok (Fin (ln (1 + 1))) /\
  clamp_and_log [] "MLR" 2 = Ok (Fin (ln (1 + 2))) /\
  ln (1 + 1) <= ln (1 + 2).
Proof.
  assert (H1 : clamp_and_log [] "MLR" 1 = Ok (Fin (ln (1 + 1)))).
  { unfold clamp_and_log. simpl. rewrite np_log1p_fin by lra. reflexivity. }
  assert (H2 : clamp_and_log [] "MLR" 2 = Ok (Fin (ln (1 + 2)))).
  { unfold clamp_and_log. simpl. rewrite np_log1p_fin by lra. reflexivity. }
  split; [lra|]. split; [exact H1|]. split; [exact H2|].
  exact (clamp_and_log_monotone [] "MLR" 1 2 _ _ ltac:(lra) H1 H2).
Defined.

Lemma clamp_and_log_err wl col v e :
  clamp_and_log wl col v = Err e ->
  e = KeyError "lower"%string \/ e = KeyError "upper"%string.
Proof.
  unfold clamp_and_log, dict_getitem.
  destruct (find_limits col wl) as [lim|]; [|discriminate].
  destruct (dict_truthy lim); [|discriminate].
  destruct (dict_get lim "lower"%string); simpl; [|intros [= <-]; auto].
  destruct (dict_get lim "upper"%string); simpl; [discriminate|intros [= <-]; auto].
Qed.

Lemma preprocess_err wl r e :
  preprocess wl (input_data r) numeric_cols = Err e ->
  e = KeyError "lower"%string \/ e = KeyError "upper"%string.
Proof.
  simpl.
  destruct (clamp_and_log wl "MLR" (mlr r)) eqn:E1; simpl; [|intros [= <-]; eauto using clamp_and_log_err].
  destruct (clamp_and_log wl "CRP" (crp r)) eqn:E2; simpl; [|intros [= <-]; eauto using clamp_and_log_err].
  destruct (clamp_and_log wl "triglycerides" (tg r)) eqn:E3; simpl;
    [|intros [= <-]; eauto using clamp_and_log_err].
  destruct (clamp_and_log wl "NLR" (nlr r)) eqn:E4; simpl; [discriminate|intros [= <-]; eauto using clamp_and_log_err].
Qed.

Lemma preprocess_fails_at wl inp cols col :
  In col cols -> (forall c, In c cols -> exists v, dict_get inp c = Some v) ->
  (forall v, exists e, clamp_and_log wl col v = Err e) ->
  exists e, preprocess wl inp cols = Err e.
Proof.
  induction cols as [|c rest IH]; [intros []|].
  intros Hin Hk Hc. simpl.
  destruct (Hk c (or_introl eq_refl)) as [v Hv]. unfold dict_getitem at 1. rewrite Hv. simpl.
  destruct (clamp_and_log wl c v) as [t|e] eqn:Ec; simpl; [|eauto].
  destruct Hin as [<-|Hin].
  - destruct (Hc v) as [e He]. congruence.
  - destruct (IH Hin (fun c' H => Hk c' (or_intror H)) Hc) as [e ->]. simpl. eauto.
Qed.

(** A truthy limits entry of a numeric variable without 'lower' or 'upper'
    makes the request raise a [KeyError] before the [try]: no Prediction
    Error message is shown. *)
Theorem missing_bound_raises wl sc m r col lim :
  In col numeric_cols -> find_limits col wl = Some lim -> dict_truthy lim = true ->
  (dict_get lim "lower"%string = None \/ dict_get lim "upper"%string = None) ->
  exists e, request wl sc m r = Raised e /\
    (e = KeyError "lower"%string \/ e = KeyError "upper"%string).
Proof.
  intros Hin Hf Ht Hb.
  assert (Hc : forall v, exists e, clamp_and_log wl col v = Err e).
  { intros v. unfold clamp_and_log, dict_getitem. rewrite Hf, Ht.
    destruct Hb as [Hl|Hu].
    - rewrite Hl. simpl. eauto.
    - destruct (dict_get lim "lower"%string); simpl; [|eauto]. rewrite Hu. simpl. eauto. }
  destruct (preprocess_fails_at wl (input_data r) numeric_cols col Hin) as [e He]; [|exact Hc|].
  { intros c Hc'. simpl in Hc'. destruct Hc' as [<-|[<-|[<-|[<-|[]]]]]; simpl; eauto. }
  exists e. split.
  - unfold request. rewrite He. reflexivity.
  - exact (preprocess_err _ _ _ He).
Qed.

Lemma missing_bound_raises_witness :
  In "NLR"%string numeric_cols /\
  find_limits "NLR" demo_bad_limits = Some [("upper", 20)]%string /\
  dict_truthy [("upper", 20)]%string = true /\
  (dict_get [("upper", 20)]%string "lower"%string = None \/
   dict_get [("upper", 20)]%string "upper"%string = None) /\
  exists e, request demo_bad_limits demo_scaler demo_model demo_input = Raised e /\
    (e = KeyError "lower"%string \/ e = KeyError "upper"%string).
Proof.
  split; [simpl; tauto|]. split; [reflexivity|]. split; [reflexivity|].
  split; [left; reflexivity|].
  apply (missing_bound_raises demo_bad_limits demo_scaler demo_model demo_input "NLR"
           [("upper", 20)]%string); [simpl; tauto | reflexivity | reflexivity | left; reflexivity].
Defined.

Lemma clamp_and_log_fin wl col v t :
  -1 < v ->
  (forall k lim lo, In (k, lim) wl -> dict_get lim "lower"%string = Some lo -> -1 < lo) ->
  clamp_and_log wl col v = Ok t -> exists a, t = Fin a.
Proof.
  intros Hv Hlo. unfold clamp_and_log, dict_getitem.
  destruct (find_limits col wl) as [lim|] eqn:Hf.
  2: { intros [= <-]. rewrite np_log1p_fin by lra. eauto. }
  destruct (dict_truthy lim).
  2: { intros [= <-]. rewrite np_log1p_fin by lra. eauto. }
  destruct (dict_get lim "lower"%string) as [lo|] eqn:Hl; [|discriminate].
  destruct (dict_get lim "upper"%string) as [up|]; [|discriminate].
  simpl. intros [= <-].
  destruct (find_limits_in _ _ _ Hf) as [k Hk].
  specialize (Hlo k lim lo Hk Hl).
  rewrite np_log1p_fin; [eauto|]. rewrite Rmax_py. apply Rlt_le_trans with lo; [lra|apply Rmax_l].
Qed.

Lemma lr_check_array_fin ys :
  Forall (fun v => exists a, v = Fin a) ys -> exists xs, lr_check_array ys = Ok xs.
Proof.
  induction 1 as [|v t [a ->] _ [xs IH]]; simpl; [eauto|]. rewrite IH. cbn [bind]. eauto.
Qed.

(** For values the form can submit, limits whose lower bounds exceed -1, a
    scaler fitted on the 21 columns, a model with 21 coefficients and
    non-empty [feature_names_in_] (if any), the request shows a result. *)
Theorem form_inputs_shown wl sc m r :
  form_value_ok r -> winsor_wellformed wl = true ->
  (forall k lim lo, In (k, lim) wl -> dict_get lim "lower"%string = Some lo -> -1 < lo) ->
  fitted_scaler sc -> List.length (coef_ m) = 21%nat ->
  (forall fs, feature_names_in_ m = Some fs -> fs <> []) ->
  exists p df, request wl sc m r = Shown p df.
Proof.
  intros (_ & _ & Hm & Hc & Hn & Ht) Hw Hlo Hs Lc Hfs.
  destruct (preprocess_wellformed_ok wl r Hw) as [logs Hp].
  assert (Fp := Hp). simpl in Fp.
  destruct (clamp_and_log_ok wl "MLR" (mlr r) Hw) as [t1 E1].
  destruct (clamp_and_log_ok wl "CRP" (crp r) Hw) as [t2 E2].
  destruct (clamp_and_log_ok wl "triglycerides" (tg r) Hw) as [t3 E3].
  destruct (clamp_and_log_ok wl "NLR" (nlr r) Hw) as [t4 E4].
  rewrite E1, E2, E3, E4 in Fp. simpl in Fp. injection Fp as <-.
  destruct (clamp_and_log_fin wl "MLR" (mlr r) t1 ltac:(lra) Hlo E1) as [a ->].
  destruct (clamp_and_log_fin wl "CRP" (crp r) t2 ltac:(lra) Hlo E2) as [b ->].
  destruct (clamp_and_log_fin wl "triglycerides" (tg r) t3 ltac:(lra) Hlo E3) as [c ->].
  destruct (clamp_and_log_fin wl "NLR" (nlr r) t4 ltac:(lra) Hlo E4) as [d ->].
  pose proof (expand_spec _ (df_input_has_core r (Fin a) (Fin b) (Fin c) (Fin d))) as He.
  pose proof (X_values _ _ _ _ _ _ He) as HV.
  pose proof (expand_names _ _ He (df_input_has_core r (Fin a) (Fin b) (Fin c) (Fin d))) as HN.
  remember (map (fun f => (f, df_val _ f)) core_feats ++ _) as X eqn:EX.
  rewrite (request_after_expand wl sc m r _ _ Hp He).
  assert (HF : Forall (fun v => exists a, v = Fin a) (map snd X)).
  { rewrite HV. repeat constructor; simpl; eauto. }
  assert (HI : Forall (fun v => is_inf v = false) (map snd X)).
  { eapply Forall_impl; [|exact HF]. intros v [x ->]. reflexivity. }
  destruct (scaler_transform_fitted sc X Hs HN HI) as (ys & Es & _ & _ & Fy).
  rewrite Es. destruct (lr_check_array_fin ys (Fy HF)) as [xs El]. rewrite El.
  assert (LX : List.length X = 21%nat) by (rewrite <- (length_map fst X), HN; reflexivity).
  assert (Lx : List.length xs = 21%nat).
  { rewrite <- (length_map Fin xs), (lr_check_array_ok _ _ El).
    rewrite (proj1 (scaler_transform_ok _ _ _ Es)). exact LX. }
  unfold predict_proba. rewrite Lx, Lc. cbn [Nat.eqb].
  destruct (contributions _ (coef_ m) xs) as [|row rows] eqn:Ec; [|eauto].
  exfalso. apply (f_equal (@List.length _)) in Ec.
  rewrite contributions_length, Lc, Lx in Ec. simpl in Ec.
  destruct (feature_names_in_ m) as [fs|].
  - destruct fs as [|f fs]; [exact (Hfs [] eq_refl eq_refl)|]. simpl in Ec. discriminate.
  - rewrite HN in Ec. simpl in Ec. discriminate.
Qed.

Lemma form_inputs_shown_witness :
  form_value_ok demo_input /\ winsor_wellformed [] = true /\
  (forall k lim lo, In (k, lim) ([] : winsor) -> dict_get lim "lower"%string = Some lo -> -1 < lo) /\
  fitted_scaler demo_scaler2 /\ List.length (coef_ demo_model) = 21%nat /\
  (forall fs, feature_names_in_ demo_model = Some fs -> fs <> []) /\
  exists p df, request [] demo_scaler2 demo_model demo_input = Shown p df.
Proof.
  assert (Hf : form_value_ok demo_input).
  { unfold form_value_ok, demo_input; simpl. repeat split; try lra; auto. }
  assert (Hl : forall k lim lo, In (k, lim) ([] : winsor) -> dict_get lim "lower"%string = Some lo -> -1 < lo)
    by (intros ? ? ? []).
  assert (Hs : fitted_scaler demo_scaler2).
  { unfold fitted_scaler, demo_scaler2. cbn [sc_feature_names_in_ n_features_in_ with_mean
      with_std mean_ scale_]. split; [right; reflexivity|]. split; [reflexivity|].
    split; [intros _; reflexivity|]. intros _. split; [reflexivity|].
    apply Forall_forall. intros x Hx. apply repeat_spec in Hx. lra. }
  assert (Hn : forall fs, feature_names_in_ demo_model = Some fs -> fs <> []) by discriminate.
  split; [exact Hf|]. split; [reflexivity|]. split; [exact Hl|]. split; [exact Hs|].
  split; [reflexivity|]. split; [exact Hn|].
  exact (form_inputs_shown [] demo_scaler2 demo_model demo_input Hf eq_refl Hl Hs eq_refl Hn).
Defined.

(** A -inf log feature (a value clamped to exactly -1) ends in the
    Prediction Error branch: [scaler.transform] raises its infinity
    message, or before it its feature-name message when it was fitted with
    other names. *)
Theorem neginf_feature_prediction_error wl sc m r logs k :
  preprocess wl (input_data r) numeric_cols = Ok logs ->
  In (k, NegInf) logs ->
  exists msg X, request wl sc m r = PredictionError (ValueError msg) X /\
    map fst X = names21 /\
    (forall fs, sc_feature_names_in_ sc = Some fs -> fs <> names21 ->
       msg = names_mismatch_msg fs names21) /\
    (sc_feature_names_in_ sc = None \/ sc_feature_names_in_ sc = Some names21 -> msg = inf_msg).
Proof.
  intros Hp Hin.
  destruct (preprocess_shape _ _ _ Hp) as (a & b & c & d & ->).
  pose proof (expand_spec _ (df_input_has_core r a b c d)) as He.
  pose proof (X_values _ _ _ _ _ _ He) as HV.
  pose proof (expand_names _ _ He (df_input_has_core r a b c d)) as HN.
  remember (map (fun f => (f, df_val _ f)) core_feats ++ _) as X eqn:EX.
  rewrite (request_after_expand wl sc m r _ _ Hp He).
  assert (I : existsb is_inf (map snd X) = true).
  { apply existsb_exists. exists NegInf. split; [|reflexivity]. rewrite HV. simpl in Hin |- *.
    destruct Hin as [[= _ <-]|[[= _ <-]|[[= _ <-]|[[= _ <-]|[]]]]]; tauto. }
  unfold scaler_transform. rewrite HN.
  destruct (sc_feature_names_in_ sc) as [fs|] eqn:Ef; unfold check_feature_names.
  - destruct (list_eq_dec string_dec fs names21) as [->|Ne]; cbn [bind].
    + rewrite I. do 2 eexists. split; [reflexivity|]. split; [exact HN|]. split.
      * intros fs' [= <-] Hne. contradiction.
      * intros _. reflexivity.
    + do 2 eexists. split; [reflexivity|]. split; [exact HN|]. split.
      * intros fs' [= <-] _. reflexivity.
      * intros [E|E]; [discriminate|]. injection E as E. contradiction.
  - cbn [bind]. rewrite I. do 2 eexists. split; [reflexivity|]. split; [exact HN|].
    split; [discriminate|]. intros _. reflexivity.
Qed.

Lemma neginf_feature_prediction_error_witness :
  preprocess [] (input_data demo_minus_one) numeric_cols =
    Ok [("log_MLR", NegInf); ("log_CRP", NegInf);
        ("log_triglycerides", NegInf); ("log_NLR", NegInf)]%string /\
  In ("log_MLR"%string, NegInf) [("log_MLR", NegInf); ("log_CRP", NegInf);
        ("log_triglycerides", NegInf); ("log_NLR", NegInf)]%string /\
  exists msg X, request [] demo_scaler demo_model demo_minus_one = PredictionError (ValueError msg) X /\
    map fst X = names21 /\
    (forall fs, sc_feature_names_in_ demo_scaler = Some fs -> fs <> names21 ->
       msg = names_mismatch_msg fs names21) /\
    (sc_feature_names_in_ demo_scaler = None \/ sc_feature_names_in_ demo_scaler = Some names21 ->
       msg = inf_msg).
Proof.
  assert (Hp : preprocess [] (input_data demo_minus_one) numeric_cols =
    Ok [("log_MLR", NegInf); ("log_CRP", NegInf);
        ("log_triglycerides", NegInf); ("log_NLR", NegInf)]%string).
  { simpl. unfold clamp_and_log. simpl. rewrite np_log1p_at. reflexivity. }
  split; [exact Hp|]. split; [left; reflexivity|].
  exact (neginf_feature_prediction_error [] demo_scaler demo_model demo_minus_one _
           "log_MLR"%string Hp (or_introl eq_refl)).
Defined.

Lemma chart_shows_top6_witness :
  exists p df, request [] demo_scaler demo_model demo_input = Shown p df /\
  map fst (chart_rows df) = firstn 6 df /\
  (forall row, In row (chart_rows df) ->
     forall y, In y (skipn 6 df) -> Rabs (snd y) <= Rabs (snd (fst row))) /\
  (forall row, In row (chart_rows df) ->
     snd row = "Increases Risk"%string <-> 0 < snd (fst row)).
Proof.
  destruct demo_request as (p & df & H).
  exists p, df. split; [exact H|].
  exact (chart_shows_top6 [] demo_scaler demo_model demo_input p df H).
Defined.

Lemma contributions_snd names names' cs xs :
  List.length names = List.length names' ->
  map snd (contributions names cs xs) = map snd (contributions names' cs xs).
Proof.
  revert names' cs xs. induction names as [|n ns IH]; intros [|n' ns'] cs xs L;
    try discriminate; [reflexivity|].
  destruct cs as [|c cs]; [reflexivity|]. destruct xs as [|x xs]; [reflexivity|].
  rewrite !contributions_cons. simpl. f_equal. apply IH. simpl in L. lia.
Qed.

Lemma sort_by_abs_desc_snd rows rows' :
  map snd rows = map snd rows' ->
  map snd (sort_by_abs_desc rows) = map snd (sort_by_abs_desc rows').
Proof.
  intros E. unfold sort_by_abs_desc, sort_by_abs_desc_with.
  assert (K : forall l : list (string * R),
             map (fun r => Rabs (snd r)) l = map Rabs (map snd l))
    by (intros l; rewrite map_map; reflexivity).
  rewrite !K, E, !map_map.
  apply map_ext. intros i.
  rewrite <- (map_nth snd rows (""%string, 0) i), <- (map_nth snd rows' (""%string, 0) i), E.
  reflexivity.
Qed.

(** [feature_names_in_] only labels the rows: another name list of the same
    length gives the same probability and the same impact column. *)
Theorem feature_names_only_label wl sc m r fn p df :
  request wl sc m r = Shown p df ->
  (forall fs, feature_names_in_ m = Some fs -> List.length fs = 21%nat) ->
  (forall fs, fn = Some fs -> List.length fs = 21%nat) ->
  exists df',
    request wl sc {| coef_ := coef_ m; intercept_ := intercept_ m; feature_names_in_ := fn |} r
      = Shown p df' /\
    map snd df' = map snd df.
Proof.
  intros H Hm Hfn.
  destruct (request_shown_inv _ _ _ _ _ _ H)
    as (logs & X & ys & xs & Hp & He & Hs & Hl & L & Hpr & Hne & Hdf).
  destruct (preprocess_shape _ _ _ Hp) as (a & b & c & d & ->).
  pose proof (expand_names _ _ He (df_input_has_core r a b c d)) as N.
  assert (L21 : List.length (map fst X) = 21%nat) by (rewrite N; reflexivity).
  assert (Ln : List.length (match fn with Some fs => fs | None => map fst X end) =
               List.length (match feature_names_in_ m with Some fs => fs | None => map fst X end)).
  { destruct fn as [fs|]; destruct (feature_names_in_ m) as [gs|];
      rewrite ?(Hfn fs eq_refl), ?(Hm gs eq_refl), ?L21; reflexivity. }
  pose proof (contributions_snd _ _ (coef_ m) xs Ln) as S.
  destruct (contributions (match fn with Some fs => fs | None => map fst X end) (coef_ m) xs)
    as [|row rows] eqn:Ec.
  - exfalso. destruct (contributions _ (coef_ m) xs); [congruence|discriminate].
  - exists (sort_by_abs_desc (row :: rows)). split.
    + unfold request. rewrite Hp, He, Hs, Hl. unfold predict_proba.
      cbn [coef_ intercept_ feature_names_in_].
      destruct (Nat.eqb_spec (List.length xs) (List.length (coef_ m))); [|lia].
      rewrite Ec. subst p. reflexivity.
    + rewrite Hdf. apply sort_by_abs_desc_snd. exact S.
Qed.

Lemma feature_names_only_label_witness :
  exists p df, request [] demo_scaler demo_model demo_input = Shown p df /\
  (forall fs, feature_names_in_ demo_model = Some fs -> List.length fs = 21%nat) /\
  (forall fs, Some (rev names21) = Some fs -> List.length fs = 21%nat) /\
  exists df',
    request [] demo_scaler
      {| coef_ := coef_ demo_model; intercept_ := intercept_ demo_model;
         feature_names_in_ := Some (rev names21) |} demo_input = Shown p df' /\
    map snd df' = map snd df.
Proof.
  destruct demo_request as (p & df & H).
  assert (Hm : forall fs, feature_names_in_ demo_model = Some fs -> List.length fs = 21%nat)
    by discriminate.
  assert (Hf : forall fs, Some (rev names21) = Some fs -> List.length fs = 21%nat)
    by (intros fs [= <-]; reflexivity).
  exists p, df. split; [exact H|]. split; [exact Hm|]. split; [exact Hf|].
  exact (feature_names_only_label [] demo_scaler demo_model demo_input _ p df H Hm Hf).
Defined.

(** The probability is shown and then [KeyError('Impact')] raised exactly
    when the model's [feature_names_in_] is empty: the contribution list is
    then empty, and its DataFrame has no ['Impact'] column to sort by. Such a
    model never shows a contribution table. *)
Theorem impact_keyerror wl sc m r :
  (forall p e X, request wl sc m r = ShownThenError p e X ->
     e = KeyError "Impact" /\ feature_names_in_ m = Some [] /\ 0 <= p <= 1) /\
  (feature_names_in_ m = Some [] -> forall p df, request wl sc m r <> Shown p df).
Proof.
  split.
  - intros p e X. unfold request.
    destruct (preprocess _ _ _) as [logs|e'] eqn:Hp; [|discriminate].
    destruct (expand _) as [X'|e'] eqn:He; [|discriminate].
    destruct (scaler_transform sc X') as [ys|e'] eqn:Hs; [|discriminate].
    destruct (lr_check_array ys) as [xs|e'] eqn:Hl; [|discriminate].
    unfold predict_proba.
    destruct (Nat.eqb_spec (List.length xs) (List.length (coef_ m))) as [L|L]; [|discriminate].
    destruct (contributions _ (coef_ m) xs) as [|row rows] eqn:Ec; [|discriminate].
    intros [= <- <- _]. split; [reflexivity|].
    split; [|pose proof (expit_bounds (decision_function m xs)); lra].
    destruct (preprocess_shape _ _ _ Hp) as (a & b & c & d & ->).
    pose proof (expand_names _ _ He (df_input_has_core r a b c d)) as N.
    assert (Lx : List.length xs = 21%nat).
    { rewrite <- (length_map Fin xs), (lr_check_array_ok _ _ Hl).
      rewrite (proj1 (scaler_transform_ok _ _ _ Hs)).
      rewrite <- (length_map fst X'), N. reflexivity. }
    apply (f_equal (@List.length _)) in Ec.
    rewrite contributions_length, <- L, Lx in Ec. simpl in Ec.
    destruct (feature_names_in_ m) as [[|f fs]|]; [reflexivity|discriminate|].
    rewrite N in Ec. discriminate.
  - intros Hn p df H.
    destruct (request_shown_inv _ _ _ _ _ _ H) as (logs & X & ys & xs & _ & _ & _ & _ & _ & _ & Hne & _).
    rewrite Hn in Hne. apply Hne. reflexivity.
Qed.

Lemma demo_request_nonames :
  exists p X, request [] demo_scaler demo_model_nonames demo_input
                = ShownThenError p (KeyError "Impact") X.
Proof.
  unfold request.
  cbn -[np_log1p pf_mul pf_div sort_by_abs_desc contributions expit decision_function].
  rewrite np_log1p_fin by lra.
  cbn -[pf_div sort_by_abs_desc contributions expit decision_function].
  rewrite !pf_div_fin by lra.
  cbn -[sort_by_abs_desc expit decision_function].
  eauto.
Qed.

Lemma impact_keyerror_witness :
  exists p X, request [] demo_scaler demo_model_nonames demo_input
                = ShownThenError p (KeyError "Impact") X /\
  (KeyError "Impact" = KeyError "Impact" /\ feature_names_in_ demo_model_nonames = Some [] /\
   0 <= p <= 1) /\
  forall p' df, request [] demo_scaler demo_model_nonames demo_input <> Shown p' df.
Proof.
  destruct demo_request_nonames as (p & X & H).
  exists p, X. split; [exact H|]. split.
  - exact (proj1 (impact_keyerror [] demo_scaler demo_model_nonames demo_input) p _ X H).
  - exact (proj2 (impact_keyerror [] demo_scaler demo_model_nonames demo_input) eq_refl).
Defined.
